(** * Batch resolution of the configured-asset filesystem data connector,
      and the decreasing-values expectation

    A shallow embedding of
    [great_expectations/execution_environment/data_connector/configured_asset_filesystem_data_connector.py]
    and of
    [great_expectations/expectations/core/expect_column_values_to_be_decreasing.py].

    Python objects are records, Python dicts are insertion-ordered
    association lists, [None] is [option], a raised exception is the [Raise]
    branch of [result], and a method of the connector is a function from the
    connector to an outcome and the connector it leaves behind (the object is
    mutated in place, also when the method raises). *)

From Stdlib Require Import String Ascii Bool Arith ZArith QArith Lia.
From Stdlib Require Import List Permutation Sorted.
Import ListNotations.

Close Scope Q_scope.
Local Open Scope string_scope.
Local Open Scope list_scope.

Set Implicit Arguments.

(* ================================================================= *)
(** ** Python values *)

Module Py.

(** The exceptions the embedded code raises or lets through. *)
Inductive exn : Type :=
| ValueError
| IndexError
| AttributeError
| TypeError
| ZeroDivisionError
| DataConnectorError
| UnresolvableReferenceError
| StoreError.

Inductive result (A : Type) : Type :=
| Ok (a : A)
| Raise (e : exn).
Arguments Ok {A} a.
Arguments Raise {A} e.

Definition is_ok {A} (r : result A) : bool :=
  match r with Ok _ => true | Raise _ => false end.

(** Truth value of an optional string ([None] and [""] are falsy). *)
Definition truthy_str (o : option string) : bool :=
  match o with
  | Some s => negb (String.eqb s "")
  | None => false
  end.

(** Truth value of an optional list ([None] and [[]] are falsy). *)
Definition truthy_list {A} (o : option (list A)) : bool :=
  match o with
  | Some (_ :: _) => true
  | _ => false
  end.

(** Insertion-ordered dict with string keys. *)
Section Dict.
Variable V : Type.

Definition dict := list (string * V).

Fixpoint dict_get (k : string) (d : dict) : option V :=
  match d with
  | [] => None
  | (k', v) :: d' => if String.eqb k k' then Some v else dict_get k d'
  end.

(** [d[k] = v]: an existing key keeps its place, a new one goes last. *)
Fixpoint dict_set (k : string) (v : V) (d : dict) : dict :=
  match d with
  | [] => [(k, v)]
  | (k', v') :: d' =>
      if String.eqb k k' then (k', v) :: d' else (k', v') :: dict_set k v d'
  end.

Definition dict_keys (d : dict) : list string := map fst d.
Definition dict_values (d : dict) : list V := map snd d.

(** [dict(items)]. *)
Definition dict_of_items (items : list (string * V)) : dict :=
  fold_left (fun d kv => dict_set (fst kv) (snd kv) d) items [].
End Dict.

(** [x in l] for a list of strings. *)
Definition str_in (x : string) (l : list string) : bool :=
  existsb (String.eqb x) l.

End Py.
Import Py.

(* ================================================================= *)
(** ** The regular-expression engine

    The connector hands its patterns to the regular-expression library.
    A pattern is kept here in parsed form: a concatenation of literal
    characters and capture groups, each group holding a group-free
    expression.  Matching is the backtracking search of the library: leftmost
    alternative first, greedy repetition, anchored at the start of the
    subject and free at its end. *)

Module Regex.

Inductive re : Type :=
| Eps
| Chr (c : ascii)
| AnyChr
| Class (cs : list ascii)
| Cat (r1 r2 : re)
| Alt (r1 r2 : re)
| Star (r : re).

Definition Plus (r : re) : re := Cat r (Star r).

Inductive piece : Type :=
| Lit (c : ascii)
| Grp (r : re).

Definition pattern := list piece.

Definition newline : ascii := "010"%char.

Definition in_class (x : ascii) (cs : list ascii) : bool :=
  existsb (Ascii.eqb x) cs.

Section Matcher.
Variable A : Type.

Definition cont := list ascii -> option A.

(** Greedy repetition of the matcher [m], as [re] runs it: after an
    iteration that consumed input another one is tried first, and after
    an iteration that consumed nothing the repetition ends there and the
    rest of the pattern goes on; so [length s] rounds are all there can
    be. *)
Fixpoint star_loop (m : list ascii -> cont -> option A) (n : nat)
         (s : list ascii) (k : cont) : option A :=
  match n with
  | O => k s
  | S n' =>
      match m s (fun s' => if Nat.ltb (length s') (length s)
                           then star_loop m n' s' k else k s') with
      | Some x => Some x
      | None => k s
      end
  end.

Fixpoint rmatch (r : re) (s : list ascii) (k : cont) : option A :=
  match r with
  | Eps => k s
  | Chr c =>
      match s with
      | x :: s' => if Ascii.eqb x c then k s' else None
      | [] => None
      end
  | AnyChr =>
      match s with
      | x :: s' => if Ascii.eqb x newline then None else k s'
      | [] => None
      end
  | Class cs =>
      match s with
      | x :: s' => if in_class x cs then k s' else None
      | [] => None
      end
  | Cat r1 r2 => rmatch r1 s (fun s' => rmatch r2 s' k)
  | Alt r1 r2 =>
      match rmatch r1 s k with
      | Some x => Some x
      | None => rmatch r2 s k
      end
  | Star r1 => star_loop (rmatch r1) (length s) s k
  end.
End Matcher.

(** Matching a pattern: the groups captured so far are kept in reverse;
    the answer holds the groups and the unread rest of the subject. *)
Fixpoint pmatch (p : pattern) (s : list ascii) (acc : list (list ascii))
  : option (list (list ascii) * list ascii) :=
  match p with
  | [] => Some (rev acc, s)
  | Lit c :: p' =>
      match s with
      | x :: s' => if Ascii.eqb x c then pmatch p' s' acc else None
      | [] => None
      end
  | Grp r :: p' =>
      rmatch r s
        (fun s' => pmatch p' s' (firstn (length s - length s') s :: acc))
  end.

(** [re.match(pattern, subject)] followed by [.groups()]. *)
Definition re_match (p : pattern) (subject : string) : option (list string) :=
  match pmatch p (list_ascii_of_string subject) [] with
  | Some (gs, _) => Some (map string_of_list_ascii gs)
  | None => None
  end.

(** Some expressions and a way to write literal text. *)
Definition digit : re := Class (list_ascii_of_string "0123456789").
Definition lower : re :=
  Class (list_ascii_of_string "abcdefghijklmnopqrstuvwxyz").
Definition lits (s : string) : pattern := map Lit (list_ascii_of_string s).

(** The number of capture groups of a pattern, and the text a match
    read, put together from the captured groups. *)
Fixpoint ngroups (p : pattern) : nat :=
  match p with
  | [] => 0
  | Lit _ :: p' => ngroups p'
  | Grp _ :: p' => S (ngroups p')
  end.

Fixpoint matched_text (p : pattern) (groups : list (list ascii)) : list ascii :=
  match p with
  | [] => []
  | Lit c :: p' => c :: matched_text p' groups
  | Grp _ :: p' =>
      match groups with
      | g :: groups' => g ++ matched_text p' groups'
      | [] => []
      end
  end.

(** Notions to state what a match reads.  A matcher answers with what
    its continuation answered on a rest of the subject; a continuation is
    [bounded] when the rest it returns is no longer than what it was given;
    and two answers agree [up to] an unread rest [t] when failure on the
    longer subject means failure on the shorter one, and success leaving
    [t] unread means the same success leaving nothing. *)
Definition calls_on_rest {A} (m : list ascii -> cont A -> option A) : Prop :=
  forall s k x, m s k = Some x ->
                exists pre s', s = pre ++ s' /\ k s' = Some x.

Definition bounded {G} (k : cont (G * list ascii)) : Prop :=
  forall s g rest, k s = Some (g, rest) -> length rest <= length s.

Definition agree_up_to {G} (t : list ascii)
           (x x' : option (G * list ascii)) : Prop :=
  (x = None -> x' = None) /\
  (forall g, x = Some (g, t) -> x' = Some (g, [])).

Definition stable_under {G} (t : list ascii)
           (k k' : cont (G * list ascii)) : Prop :=
  forall u, agree_up_to t (k (u ++ t)) (k' u).

End Regex.
Import Regex.

(* ================================================================= *)
(** ** Data model *)

(** A partition definition maps group names to the captured text. *)
Definition PartitionDefinition := dict string.

Record BatchDefinition : Type := {
  bd_execution_environment_name : string;
  bd_data_connector_name : string;
  bd_data_asset_name : option string;
  partition_definition : PartitionDefinition
}.

(** The [Asset] override record: each field may be left out. *)
Record Asset : Type := {
  asset_base_directory : option string;
  asset_pattern : option pattern;
  asset_group_names : option (list string)
}.

(** An empty pattern is falsy like the empty pattern string. *)
Definition truthy_pattern (o : option pattern) : bool := truthy_list o.

(** The [default_regex] dict, with its two keys. *)
Record RegexConfig : Type := {
  pattern_of : pattern;
  group_names_of : list string
}.

Record PathBatchSpec : Type := { path : string }.

(* ================================================================= *)
(** ** Paths

    [Path(...).is_absolute()] and [str(Path(base).joinpath(p))] on POSIX
    paths that hold no doubled separator and no dot component. *)

Module PathLib.

Definition is_absolute (p : string) : bool :=
  match p with
  | String c _ => Ascii.eqb c "/"%char
  | EmptyString => false
  end.

Fixpoint strip_trailing_slash (p : string) : string :=
  match p with
  | EmptyString => EmptyString
  | String c EmptyString => if Ascii.eqb c "/"%char then EmptyString else p
  | String c rest => String c (strip_trailing_slash rest)
  end.

(** [str(Path(p))]: a trailing separator is dropped, the root stays the
    root, and the empty path reads as a dot. *)
Definition normalize (p : string) : string :=
  match strip_trailing_slash p with
  | EmptyString => if is_absolute p then "/" else "."
  | q => q
  end.

Definition joinpath (base p : string) : string :=
  normalize
    (if is_absolute p then p
     else if String.eqb p "" then base
     else if String.eqb base "" || String.eqb base "." then p
     else (strip_trailing_slash base ++ "/" ++ p)%string).

End PathLib.
Import PathLib.

(* ================================================================= *)
(** ** The pattern mapper *)

Module PatternMapper.

(** Modelled from the spec: [map_data_reference_string_to_batch_definition_list_using_regex]
    of [data_connector/util.py], which is not part of the sources at hand.
    "Applies a single regular expression with len(group_names) capture
    groups; on match, zips group values to names positionally; on failure
    to match, signals no match." *)
Definition map_data_reference_string_to_batch_definition_list_using_regex
           (execution_environment_name data_connector_name : string)
           (data_asset_name : option string) (data_reference : string)
           (regex_pattern : pattern) (group_names : list string)
  : option (list BatchDefinition) :=
  match re_match regex_pattern data_reference with
  | None => None
  | Some groups =>
      Some [ {| bd_execution_environment_name := execution_environment_name;
                bd_data_connector_name := data_connector_name;
                bd_data_asset_name := data_asset_name;
                partition_definition :=
                  dict_of_items (combine group_names groups) |} ]
  end.

(** The literal path template of a pattern: its literal text, with a
    named hole where a capture group stands. *)
Inductive template_part : Type :=
| TLit (c : ascii)
| THole (name : string).

Fixpoint template_of (p : pattern) (group_names : list string)
  : option (list template_part) :=
  match p with
  | [] => Some []
  | Lit c :: p' =>
      option_map (cons (TLit c)) (template_of p' group_names)
  | Grp _ :: p' =>
      match group_names with
      | [] => None
      | g :: gs => option_map (cons (THole g)) (template_of p' gs)
      end
  end.

Fixpoint fill (t : list template_part) (values : PartitionDefinition)
  : option string :=
  match t with
  | [] => Some ""
  | TLit c :: t' => option_map (String c) (fill t' values)
  | THole g :: t' =>
      match dict_get g values with
      | None => None
      | Some v => option_map (String.append v) (fill t' values)
      end
  end.

(** Modelled from the spec: [map_batch_definition_to_data_reference_string_using_regex]
    of [data_connector/util.py], which is not part of the sources at hand.
    "Performs template substitution of group values back into a literal
    path-construction template (not the regex) keyed by the same group
    names; fails with UnresolvableReferenceError if a required group value
    is absent from the given PartitionIdentity." *)
Definition map_batch_definition_to_data_reference_string_using_regex
           (batch_definition : BatchDefinition)
           (regex_pattern : pattern) (group_names : list string)
  : result string :=
  match template_of regex_pattern group_names with
  | None => Raise UnresolvableReferenceError
  | Some t =>
      match fill t (partition_definition batch_definition) with
      | None => Raise UnresolvableReferenceError
      | Some s => Ok s
      end
  end.

End PatternMapper.
Import PatternMapper.

(* ================================================================= *)
(** ** Sorters *)

Module SorterModel.

(** Sort keys are compared as sequences of numbers, first difference
    first: a number is a one-element key, a text the key of its character
    codes, a date the key of its fields. *)
Fixpoint key_leb (a b : list N) : bool :=
  match a, b with
  | [], _ => true
  | _ :: _, [] => false
  | x :: a', y :: b' =>
      if N.ltb x y then true
      else if N.eqb x y then key_leb a' b' else false
  end.

(** Modelled from the spec: the [Sorter] class of [data_connector/sorter],
    which is not part of the sources at hand.  "Named comparator bound to
    one partition-identity field, with a direction and a type-specific
    comparison rule (lexical, numeric, date)."  The rule is given by the
    key it compares. *)
Record Sorter : Type := {
  sorter_name : string;
  reverse : bool;
  sorter_rule : string -> list N
}.

Definition sorter_key (s : Sorter) (bd : BatchDefinition) : list N :=
  match dict_get (sorter_name s) (partition_definition bd) with
  | Some v => sorter_rule s v
  | None => []
  end.

Definition sorter_leb (s : Sorter) (x y : BatchDefinition) : bool :=
  if reverse s
  then key_leb (sorter_key s y) (sorter_key s x)
  else key_leb (sorter_key s x) (sorter_key s y).

Section StableSort.
Variable A : Type.
Variable leb : A -> A -> bool.

(** [x] goes in front of the first element that is not below it, so
    in front of the elements equal to it. *)
Fixpoint insert (x : A) (l : list A) : list A :=
  match l with
  | [] => [x]
  | y :: l' => if leb x y then x :: l else y :: insert x l'
  end.

(** A stable sort: equal elements keep the order they came in. *)
Fixpoint stable_sort (l : list A) : list A :=
  match l with
  | [] => []
  | x :: l' => insert x (stable_sort l')
  end.
End StableSort.

(** Modelled from the spec: [Sorter.get_sorted_batch_definitions], "a
    stable sort at each step" on the sorter's field, in its direction. *)
Definition get_sorted_batch_definitions (s : Sorter)
           (batch_definitions : list BatchDefinition) : list BatchDefinition :=
  stable_sort (sorter_leb s) batch_definitions.

(** Two rules. *)
Definition lexical_rule (v : string) : list N :=
  map N_of_ascii (list_ascii_of_string v).

Definition digit_value (c : ascii) : N := (N_of_ascii c - 48)%N.

Definition numeric_rule (v : string) : list N :=
  [fold_left (fun n c => (10 * n + digit_value c)%N)
             (list_ascii_of_string v) 0%N].

(** Ordering by a first key, and by a second key among the elements the
    first key holds equal. *)
Definition refine_leb {A} (leA leB : A -> A -> bool) (x y : A) : bool :=
  if leA x y then (if leA y x then leB x y else true) else false.

(** The order the spec asks of the sorter chain: "the sort key listed first
    in configuration has final, highest-priority effect", the later ones
    break its ties. *)
Fixpoint lexicographic_leb (ss : list Sorter) (x y : BatchDefinition) : bool :=
  match ss with
  | [] => true
  | s :: ss' => refine_leb (sorter_leb s) (lexicographic_leb ss') x y
  end.

(** A boolean order that compares any two elements, transitively. *)
Definition total {A} (leb : A -> A -> bool) : Prop :=
  forall x y, leb x y = true \/ leb y x = true.
Definition transitive {A} (leb : A -> A -> bool) : Prop :=
  forall x y z, leb x y = true -> leb y z = true -> leb x z = true.

(** Two elements that the order holds equal. *)
Definition tied {A} (leb : A -> A -> bool) (x y : A) : bool :=
  leb x y && leb y x.

End SorterModel.
Import SorterModel.

(* ================================================================= *)
(** ** The connector object *)

Definition SubCache := dict (option (list BatchDefinition)).
Definition Cache := dict SubCache.

Record Connector : Type := {
  name : string;
  execution_environment_name : string;
  _data_context_root_directory : option string;
  _base_directory : string;
  _glob_directive : string;
  _default_regex : RegexConfig;
  assets : dict Asset;
  sorters : dict Sorter;
  _data_references_cache : option Cache
}.

Definition set_data_references_cache (c : Connector) (v : option Cache)
  : Connector :=
  {| name := name c;
     execution_environment_name := execution_environment_name c;
     _data_context_root_directory := _data_context_root_directory c;
     _base_directory := _base_directory c;
     _glob_directive := _glob_directive c;
     _default_regex := _default_regex c;
     assets := assets c;
     sorters := sorters c;
     _data_references_cache := v |}.

(** [self._default_regex["group_names"] = v]. *)
Definition set_default_group_names (c : Connector) (v : list string)
  : Connector :=
  {| name := name c;
     execution_environment_name := execution_environment_name c;
     _data_context_root_directory := _data_context_root_directory c;
     _base_directory := _base_directory c;
     _glob_directive := _glob_directive c;
     _default_regex := {| pattern_of := pattern_of (_default_regex c);
                          group_names_of := v |};
     assets := assets c;
     sorters := sorters c;
     _data_references_cache := _data_references_cache c |}.

Definition _normalize_directory_path
           (data_context_root_directory : option string) (dir_path : string)
  : string :=
  match data_context_root_directory with
  | None => dir_path
  | Some root =>
      if is_absolute dir_path then dir_path else joinpath root dir_path
  end.

(** [__init__]; the cache starts out as [None] (the connector is
    Uninitialized until the first refresh). *)
Definition init (name_ execution_environment_name_ base_directory : string)
           (default_regex : RegexConfig) (assets_ : dict Asset)
           (glob_directive : string) (sorters_ : dict Sorter)
           (data_context_root_directory : option string) : Connector :=
  {| name := name_;
     execution_environment_name := execution_environment_name_;
     _data_context_root_directory := data_context_root_directory;
     _base_directory :=
       _normalize_directory_path data_context_root_directory base_directory;
     _glob_directive := glob_directive;
     _default_regex := default_regex;
     assets := assets_;
     sorters := sorters_;
     _data_references_cache := None |}.

Definition base_directory (c : Connector) : string := _base_directory c.

Definition get_available_data_asset_names (c : Connector) : list string :=
  dict_keys (assets c).

(** [self.assets[data_asset_name]] under the guard
    [data_asset_name is not None and self.assets and data_asset_name in self.assets]. *)
Definition known_asset (c : Connector) (data_asset_name : option string)
  : option Asset :=
  match data_asset_name with
  | Some a => dict_get a (assets c)
  | None => None
  end.

(** The directory [_get_data_reference_list] lists for an asset. *)
Definition data_asset_path (c : Connector) (data_asset_name : option string)
  : string :=
  match known_asset c data_asset_name with
  | Some asset =>
      match asset_base_directory asset with
      | Some d =>
          if truthy_str (Some d) then joinpath (base_directory c) d
          else base_directory c
      | None => base_directory c
      end
  | None => base_directory c
  end.

(** [regex_config = copy.deepcopy(self._default_regex)] patched with the
    asset's overrides, as the two mapping methods compute it. *)
Definition regex_config_for (c : Connector) (data_asset_name : option string)
  : RegexConfig :=
  match known_asset c data_asset_name with
  | Some asset =>
      {| pattern_of :=
           match asset_pattern asset with
           | Some p => if truthy_pattern (Some p) then p
                       else pattern_of (_default_regex c)
           | None => pattern_of (_default_regex c)
           end;
         group_names_of :=
           match asset_group_names asset with
           | Some g => if truthy_list (Some g) then g
                       else group_names_of (_default_regex c)
           | None => group_names_of (_default_regex c)
           end |}
  | None => _default_regex c
  end.

Definition _map_data_reference_to_batch_definition_list
           (c : Connector) (data_reference : string)
           (data_asset_name : option string)
  : option (list BatchDefinition) :=
  let regex_config := regex_config_for c data_asset_name in
  map_data_reference_string_to_batch_definition_list_using_regex
    (execution_environment_name c) (name c) data_asset_name data_reference
    (pattern_of regex_config) (group_names_of regex_config).

Definition _map_batch_definition_to_data_reference
           (c : Connector) (batch_definition : BatchDefinition)
  : result string :=
  let data_asset_name := bd_data_asset_name batch_definition in
  let regex_config := regex_config_for c data_asset_name in
  map_batch_definition_to_data_reference_string_using_regex
    batch_definition (pattern_of regex_config) (group_names_of regex_config).

Definition _generate_batch_spec_parameters_from_batch_definition
           (c : Connector) (batch_definition : BatchDefinition)
  : result (dict string) :=
  match _map_batch_definition_to_data_reference c batch_definition with
  | Raise e => Raise e
  | Ok p =>
      if String.eqb p "" then Raise ValueError
      else Ok [("path", joinpath (base_directory c) p)]
  end.

(** Modelled from the spec: [DataConnector.build_batch_spec] of the base
    class, which is not part of the sources at hand: the batch spec is made
    of the parameters [_generate_batch_spec_parameters_from_batch_definition]
    returns. *)
Definition base_build_batch_spec (c : Connector)
           (batch_definition : BatchDefinition) : result (dict string) :=
  _generate_batch_spec_parameters_from_batch_definition c batch_definition.

Definition build_batch_spec (c : Connector) (batch_definition : BatchDefinition)
  : result PathBatchSpec :=
  match base_build_batch_spec c batch_definition with
  | Raise e => Raise e
  | Ok batch_spec =>
      match dict_get "path" batch_spec with
      | Some p => Ok {| path := p |}
      | None => Raise ValueError
      end
  end.

Definition get_data_reference_list_count (c : Connector) : result nat :=
  match _data_references_cache c with
  | None => Raise ValueError
  | Some cache =>
      Ok (fold_left (fun total sub => total + length (snd sub)) cache 0)
  end.

Definition is_none {A} (o : option A) : bool :=
  match o with None => true | Some _ => false end.

Definition get_unmatched_data_references (c : Connector)
  : result (list string) :=
  match _data_references_cache c with
  | None => Raise ValueError
  | Some cache =>
      Ok (fold_left
            (fun unmatched sub =>
               unmatched ++ map fst (filter (fun kv => is_none (snd kv)) (snd sub)))
            cache [])
  end.

(** Modelled from the spec: the sorters dict [build_sorters_from_config]
    makes, "configured once", is keyed by the sorters' names in the order of
    the configuration. *)
Definition build_sorters_from_config (config_list : list Sorter) : dict Sorter :=
  dict_of_items (map (fun s => (sorter_name s, s)) config_list).

Definition _sort_batch_definition_list (c : Connector)
           (batch_definition_list : list BatchDefinition)
  : list BatchDefinition :=
  let sorters_list := dict_values (sorters c) in
  fold_left (fun l sorter => get_sorted_batch_definitions sorter l)
            (rev sorters_list) batch_definition_list.

(* ================================================================= *)
(** ** Methods that change the connector

    A method is a function from the connector to its outcome and the
    connector it leaves behind. *)

Definition M (A : Type) : Type := Connector -> result A * Connector.

Definition bind {A B} (m : M A) (f : A -> M B) : M B :=
  fun c =>
    match m c with
    | (Ok a, c') => f a c'
    | (Raise e, c') => (Raise e, c')
    end.
(** A method that only reads the connector. *)
Definition reads {A} (f : Connector -> result A) : M A := fun c => (f c, c).

Notation "x <- m ;; k" := (bind m (fun x => k))
  (at level 61, m at next level, right associativity).

Section Collaborators.

(** What the connector calls but does not define: the shape of a
    partition request and its query, request validation of the base class,
    request matching of [util.py], and the directory listing. *)
Variable PartitionRequest : Type.

Record BatchRequest : Type := {
  br_execution_environment_name : string;
  br_data_connector_name : string;
  br_data_asset_name : option string;
  partition_request : option PartitionRequest
}.

Variable _validate_batch_request : Connector -> BatchRequest -> result unit.
Variable batch_definition_matches_batch_request :
  BatchDefinition -> BatchRequest -> bool.
Variable select_from_partition_request :
  PartitionRequest -> list BatchDefinition -> list BatchDefinition.
Variable get_filesystem_one_level_directory_glob_path_list :
  string -> string -> result (list string).

Definition _get_data_reference_list (c : Connector)
           (data_asset_name : option string) : result (list string) :=
  get_filesystem_one_level_directory_glob_path_list
    (data_asset_path c data_asset_name) (_glob_directive c).

(** The inner loop of the refresh: one entry per listed reference. *)
Definition map_data_references (c : Connector) (data_asset_name : string)
           (refs : list string) : SubCache :=
  fold_left
    (fun sub data_reference =>
       dict_set data_reference
         (_map_data_reference_to_batch_definition_list
            c data_reference (Some data_asset_name)) sub)
    refs [].

(** The outer loop of the refresh; a listing that raises leaves the
    cache as far as it got. *)
Fixpoint refresh_assets (c : Connector) (names : list string) (cache : Cache)
  : result unit * Cache :=
  match names with
  | [] => (Ok tt, cache)
  | data_asset_name :: rest =>
      let cache1 := dict_set data_asset_name [] cache in
      match _get_data_reference_list c (Some data_asset_name) with
      | Raise e => (Raise e, cache1)
      | Ok refs =>
          refresh_assets c rest
            (dict_set data_asset_name
                      (map_data_references c data_asset_name refs) cache1)
      end
  end.

Definition _refresh_data_references_cache : M unit :=
  fun c =>
    let (r, cache) :=
      refresh_assets c (get_available_data_asset_names c) [] in
    (r, set_data_references_cache c (Some cache)).

Definition _validate_sorters_configuration (batch_request : BatchRequest)
  : M unit :=
  fun c =>
    if Nat.ltb 0 (length (sorters c)) then
      (* regex_config is the stored dict itself *)
      let c1 :=
        match known_asset c (br_data_asset_name batch_request) with
        | Some asset =>
            match asset_group_names asset with
            | Some g =>
                if truthy_list (Some g) then set_default_group_names c g
                else c
            | None => c
            end
        | None => c
        end in
      let group_names := group_names_of (_default_regex c1) in
      if existsb (fun sorter => negb (str_in sorter group_names))
                 (dict_keys (sorters c1))
      then (Raise DataConnectorError, c1)
      else if Nat.ltb (length group_names) (length (sorters c1))
      then (Raise DataConnectorError, c1)
      else (Ok tt, c1)
    else (Ok tt, c).

(** [[batch_definitions[0] for ... if batch_definitions is not None]]. *)
Fixpoint first_batch_definitions
         (entries : list (option (list BatchDefinition)))
  : result (list BatchDefinition) :=
  match entries with
  | [] => Ok []
  | None :: rest => first_batch_definitions rest
  | Some [] :: _ => Raise IndexError
  | Some (bd :: _) :: rest =>
      match first_batch_definitions rest with
      | Ok l => Ok (bd :: l)
      | Raise e => Raise e
      end
  end.

Definition cache_entries (cache : Cache)
  : list (option (list BatchDefinition)) :=
  concat (map (fun sub => dict_values sub) (dict_values cache)).

Definition get_batch_definition_list_from_batch_request
           (batch_request : BatchRequest) : M (list BatchDefinition) :=
  _ <- reads (fun c => _validate_batch_request c batch_request) ;;
  _ <- _validate_sorters_configuration batch_request ;;
  _ <- (fun c => if is_none (_data_references_cache c)
                 then _refresh_data_references_cache c
                 else (Ok tt, c)) ;;
  firsts <- reads (fun c =>
              match _data_references_cache c with
              | None => Raise AttributeError
              | Some cache => first_batch_definitions (cache_entries cache)
              end) ;;
  let batch_definition_list :=
    filter (fun bd => batch_definition_matches_batch_request bd batch_request)
           firsts in
  let batch_definition_list :=
    match partition_request batch_request with
    | Some q => select_from_partition_request q batch_definition_list
    | None => batch_definition_list
    end in
  reads (fun c =>
           if Nat.ltb 0 (length (sorters c))
           then Ok (_sort_batch_definition_list c batch_definition_list)
           else Ok batch_definition_list).

(** The calls a client makes on a connector, and a session of calls.
    [runs_refresh] tells whether a call made in state [c] runs
    [_refresh_data_references_cache]: a refresh does, and a batch request
    does when both validations pass and the cache is still [None]. *)
Inductive call : Type :=
| CallRefresh
| CallGetBatchDefinitions (batch_request : BatchRequest)
| CallCount
| CallUnmatched.

Definition perform (k : call) (c : Connector) : Connector :=
  match k with
  | CallRefresh => snd (_refresh_data_references_cache c)
  | CallGetBatchDefinitions r =>
      snd (get_batch_definition_list_from_batch_request r c)
  | CallCount => c
  | CallUnmatched => c
  end.

Definition runs_refresh (k : call) (c : Connector) : bool :=
  match k with
  | CallRefresh => true
  | CallGetBatchDefinitions r =>
      match _validate_batch_request c r with
      | Raise _ => false
      | Ok _ =>
          match _validate_sorters_configuration r c with
          | (Ok _, c1) => is_none (_data_references_cache c1)
          | (Raise _, _) => false
          end
      end
  | CallCount => false
  | CallUnmatched => false
  end.

(** The connector after a session, and whether a refresh ran in it. *)
Fixpoint session (ks : list call) (c : Connector) : Connector * bool :=
  match ks with
  | [] => (c, false)
  | k :: ks' =>
      let (c', ran) := session ks' (perform k c) in
      (c', runs_refresh k c || ran)
  end.

(** The number of references the store lists, over all assets. *)
Definition listed_count (c : Connector) : nat :=
  list_sum
    (map (fun a => match _get_data_reference_list c (Some a) with
                   | Ok refs => length refs
                   | Raise _ => 0
                   end)
         (get_available_data_asset_names c)).

End Collaborators.

(* ================================================================= *)
(** ** The decreasing-values expectation

    The elements of a column and their subtraction are left to the
    column's dtype; the metrics handed to the validation are exact
    rationals; a missing value of a series ([NaN]) and a missing metric
    ([None]) are [None]. *)

Module Decreasing.

Definition Qlt_bool (x y : Q) : bool := negb (Qle_bool y x).

(** What [series.diff()] holds at a position that is not null: a number,
    or an infinity on a float column. *)
Inductive difference : Type :=
| Finite (q : Q)
| PlusInfinity
| MinusInfinity.

(** [d < 0] and [d <= 0], as the frame compares them. *)
Definition below_zero (d : difference) : bool :=
  match d with
  | Finite q => Qlt_bool q 0
  | PlusInfinity => false
  | MinusInfinity => true
  end.

Definition at_most_zero (d : difference) : bool :=
  match d with
  | Finite q => Qle_bool q 0
  | PlusInfinity => false
  | MinusInfinity => true
  end.

(** The same two tests as propositions. *)
Definition is_negative (d : difference) : Prop :=
  match d with
  | Finite q => (q < 0)%Q
  | PlusInfinity => False
  | MinusInfinity => True
  end.

Definition is_nonpositive (d : difference) : Prop :=
  match d with
  | Finite q => (q <= 0)%Q
  | PlusInfinity => False
  | MinusInfinity => True
  end.

(** [series_diff[series_diff.isnull()] = value]. *)
Definition fill_null (value : difference)
           (series_diff : list (option difference)) : list difference :=
  map (fun d => match d with Some q => q | None => value end) series_diff.

(** Truth value of the [strictly] keyword, which may be [None]. *)
Definition truthy_flag (strictly : option bool) : bool :=
  match strictly with Some b => b | None => false end.

Section Column.
(** The elements of the column and the subtraction of its dtype belong
    to pandas, not to this repository: [subtract v p] is [v - p] as the
    column computes it, and nothing when that is NaN, which is null. *)
Variable value : Type.
Variable subtract : value -> value -> option difference.

(** [series.diff()]: nothing for the first element, and nothing where
    the element or the one before it is missing. *)
Fixpoint diff_from (prev : option value) (series : list (option value))
  : list (option difference) :=
  match series with
  | [] => []
  | x :: rest =>
      match prev, x with
      | Some p, Some v => subtract v p
      | _, _ => None
      end :: diff_from x rest
  end.

Definition diff (series : list (option value)) : list (option difference) :=
  diff_from None series.

(** The column ["column_values.decreasing"] of the returned frame. *)
Definition _pandas_column_values_decreasing
           (series : list (option value)) (strictly : option bool)
  : list bool :=
  let series_diff := fill_null (Finite (-1)) (diff series) in
  if truthy_flag strictly
  then map below_zero series_diff
  else map at_most_zero series_diff.
End Column.

(** The arithmetic of a column of 64-bit integers: the difference wraps
    around, and is held as a float from then on. *)
Definition wrap_int64 (z : Z) : Z := ((z + 2 ^ 63) mod 2 ^ 64 - 2 ^ 63)%Z.

(** The 64-bit float next to an integer below [2^1024] in size: 53
    binary digits are kept, a tie goes to the even neighbour. *)
Definition to_float64 (z : Z) : Z :=
  let m := Z.abs z in
  if Z.ltb m (2 ^ 53) then z
  else
    let e := (Z.log2 m - 52)%Z in
    let q := (m / 2 ^ e)%Z in
    let r := (m mod 2 ^ e)%Z in
    let half := (2 ^ (e - 1))%Z in
    let q' := if Z.ltb half r || (Z.eqb r half && Z.odd q)
              then (q + 1)%Z else q in
    (Z.sgn z * (q' * 2 ^ e))%Z.

Definition int64_subtract (v p : Z) : option difference :=
  Some (Finite (inject_Z (to_float64 (wrap_int64 (v - p))))).

Definition in_int64 (z : Z) : bool :=
  (Z.leb (- 2 ^ 63) z && Z.ltb z (2 ^ 63))%Z.

(** Every difference of a value and the one before it fits into 64
    bits. *)
Fixpoint differences_fit_from (p : Z) (values : list Z) : bool :=
  match values with
  | [] => true
  | v :: rest => in_int64 (v - p) && differences_fit_from v rest
  end.

Definition differences_fit (values : list Z) : bool :=
  match values with
  | [] => true
  | x :: rest => differences_fit_from x rest
  end.

(** A metric value: a number, a list of column values, or a list of row
    indices. *)
Inductive metric_value : Type :=
| MNumber (q : Q)
| MValues (l : list Q)
| MIndices (l : list nat).

(** Arithmetic on what [metric_vals.get] returned. *)
Definition as_number (v : option metric_value) : result Q :=
  match v with
  | Some (MNumber q) => Ok q
  | _ => Raise TypeError
  end.

(** The keyword arguments [_validates] hands to [_format_map_output]. *)
Record format_map_arguments (ResultFormat : Type) : Type := {
  result_format : ResultFormat;
  success : bool;
  element_count : option metric_value;
  nonnull_count : option metric_value;
  unexpected_count : Q;
  unexpected_list : option metric_value;
  unexpected_index_list : option metric_value
}.

Section Validates.
(** The registry, the base class and the output formatter are not part
    of the sources at hand. *)
Variables Configuration RuntimeConfiguration Metrics : Type.
Variables ResultFormat RawResultFormat Output : Type.
Variable get_validation_dependencies_metrics :
  Configuration -> option RuntimeConfiguration -> list string.
Variable extract_metrics :
  list string -> Metrics -> Configuration -> option RuntimeConfiguration ->
  dict metric_value.
Variable success_kwargs_mostly : option Q.
Variable runtime_result_format :
  RuntimeConfiguration -> option RawResultFormat.
Variable default_result_format : RawResultFormat.
Variable parse_result_format : RawResultFormat -> ResultFormat.
Variable _format_map_output : format_map_arguments ResultFormat -> Output.

(** [default_kwarg_values["mostly"]]. *)
Definition default_mostly : Q := 1.

Definition validates_arguments (metric_vals : dict metric_value)
           (runtime_configuration : option RuntimeConfiguration)
  : result (format_map_arguments ResultFormat) :=
  let mostly :=
    match success_kwargs_mostly with
    | Some m => m
    | None => default_mostly
    end in
  let result_format_ :=
    match runtime_configuration with
    | Some rc =>
        match runtime_result_format rc with
        | Some f => f
        | None => default_result_format
        end
    | None => default_result_format
    end in
  match as_number (dict_get "column_values.decreasing.count" metric_vals) with
  | Raise e => Raise e
  | Ok decreasing_count =>
      match as_number (dict_get "column_values.nonnull.count" metric_vals) with
      | Raise e => Raise e
      | Ok nonnull =>
          if Qeq_bool nonnull 0 then Raise ZeroDivisionError
          else
            Ok {| result_format := parse_result_format result_format_;
                  success := Qle_bool mostly (decreasing_count / nonnull);
                  element_count :=
                    dict_get "column_values.count" metric_vals;
                  nonnull_count :=
                    dict_get "column_values.nonnull.count" metric_vals;
                  unexpected_count := (nonnull - decreasing_count)%Q;
                  unexpected_list :=
                    dict_get "column_values.decreasing.unexpected_values"
                             metric_vals;
                  unexpected_index_list :=
                    dict_get "column_values.increasing.unexpected_index_list"
                             metric_vals |}
      end
  end.

Definition _validates (configuration : Configuration) (metrics : Metrics)
           (runtime_configuration : option RuntimeConfiguration)
  : result Output :=
  let metric_dependencies :=
    get_validation_dependencies_metrics configuration runtime_configuration in
  let metric_vals :=
    extract_metrics metric_dependencies metrics configuration
                    runtime_configuration in
  match validates_arguments metric_vals runtime_configuration with
  | Raise e => Raise e
  | Ok args => Ok (_format_map_output args)
  end.
End Validates.

End Decreasing.

(* ================================================================= *)
(** ** More of the connector *)

(** The pattern reads a reference to its end. *)
Definition reads_entirely (p : pattern) (data_reference : string) : bool :=
  match pmatch p (list_ascii_of_string data_reference) [] with
  | Some (_, []) => true
  | _ => false
  end.

Section MoreOfTheConnector.

Variable PartitionRequest : Type.
Variable _validate_batch_request :
  Connector -> BatchRequest PartitionRequest -> result unit.
Variable batch_definition_matches_batch_request :
  BatchDefinition -> BatchRequest PartitionRequest -> bool.
Variable select_from_partition_request :
  PartitionRequest -> list BatchDefinition -> list BatchDefinition.
Variable get_filesystem_one_level_directory_glob_path_list :
  string -> string -> result (list string).

(** [[f(x) for x in l]] where [f] may raise: the first exception wins. *)
Fixpoint map_result {A B} (f : A -> result B) (l : list A) : result (list B) :=
  match l with
  | [] => Ok []
  | x :: l' =>
      match f x with
      | Raise e => Raise e
      | Ok y =>
          match map_result f l' with
          | Raise e => Raise e
          | Ok ys => Ok (y :: ys)
          end
      end
  end.

Definition _get_data_reference_list_from_cache_by_data_asset_name
           (data_asset_name : string) : M (list string) :=
  fun c0 =>
    (batch_definition_list <-
       get_batch_definition_list_from_batch_request
         _validate_batch_request batch_definition_matches_batch_request
         select_from_partition_request
         get_filesystem_one_level_directory_glob_path_list
         {| br_execution_environment_name := execution_environment_name c0;
            br_data_connector_name := name c0;
            br_data_asset_name := Some data_asset_name;
            partition_request := None |} ;;
     reads (fun c =>
              let regex_config := regex_config_for c (Some data_asset_name) in
              match map_result
                      (fun batch_definition =>
                         map_batch_definition_to_data_reference_string_using_regex
                           batch_definition (pattern_of regex_config)
                           (group_names_of regex_config))
                      batch_definition_list with
              | Raise e => Raise e
              | Ok path_list => Ok (stable_sort String.leb path_list)
              end)) c0.

(** What a refresh is expected to leave, to compare with what it does.
    The entries filed under an asset, one per listed reference; the first
    asset whose listing raises, with the assets before it; and the outcome
    and the cache of a refresh over distinct assets and references. *)
Definition listed_entries (c : Connector) (data_asset_name : string)
  : SubCache :=
  match _get_data_reference_list
          get_filesystem_one_level_directory_glob_path_list
          c (Some data_asset_name) with
  | Ok refs =>
      map (fun r => (r, _map_data_reference_to_batch_definition_list
                          c r (Some data_asset_name))) refs
  | Raise _ => []
  end.

Fixpoint first_failure (c : Connector) (names : list string)
  : option (list string * string * exn) :=
  match names with
  | [] => None
  | a :: rest =>
      match _get_data_reference_list
              get_filesystem_one_level_directory_glob_path_list
              c (Some a) with
      | Raise e => Some ([], a, e)
      | Ok _ =>
          match first_failure c rest with
          | None => None
          | Some (done, b, e) => Some (a :: done, b, e)
          end
      end
  end.

Definition refresh_outcome (c : Connector) : result unit * Cache :=
  let names := get_available_data_asset_names c in
  match first_failure c names with
  | None => (Ok tt, map (fun a => (a, listed_entries c a)) names)
  | Some (done, a, e) =>
      (Raise e, map (fun a => (a, listed_entries c a)) done ++ [(a, [])])
  end.

End MoreOfTheConnector.

(* ================================================================= *)
(** ** Scenarios

    Concrete connectors, stores and series on which the statements below
    are run. *)

Module Scenario.
Import Decreasing.

Definition series_3_1_2 : list (option Z) := [Some 3%Z; Some 1%Z; Some 2%Z].

(** The two ends of the 64-bit range, one after the other. *)
Definition series_min_max : list (option Z) :=
  [Some (- 2 ^ 63)%Z; Some (2 ^ 63 - 1)%Z].

(** Metrics as the decreasing expectation finds them: its two counts and
    its own unexpected values; an index list filed under the decreasing
    key. *)
Definition metric_vals_decreasing : dict metric_value :=
  [ ("column_values.decreasing.count", MNumber 2%Q);
    ("column_values.nonnull.count", MNumber 3%Q);
    ("column_values.count", MNumber 3%Q);
    ("column_values.decreasing.unexpected_values", MValues [2%Q]);
    ("column_values.decreasing.unexpected_index_list", MIndices [2%nat]) ].

(** Stand-ins for the registry and the formatter: the metrics are handed
    over as they are, and the formatted output is the argument record. *)
Definition decreasing_dependencies (_ : unit) (_ : option unit) : list string :=
  ["column_values.decreasing.count"; "column_values.nonnull.count"].
Definition metrics_as_given (_ : list string) (metrics : dict metric_value)
           (_ : unit) (_ : option unit) : dict metric_value := metrics.
Definition no_runtime_format (_ : unit) : option string := None.
Definition keep_format (f : string) : string := f.
Definition output_is_arguments (args : format_map_arguments string)
  : format_map_arguments string := args.

(** A pattern for names like [abc_12.csv], with its two group names. *)
Definition name_id_pattern : pattern :=
  [Grp (Plus lower)] ++ lits "_" ++ [Grp (Plus digit)] ++ lits ".csv".

Definition name_id_regex : RegexConfig :=
  {| pattern_of := name_id_pattern; group_names_of := ["name"; "id"] |}.

Definition plain_asset : Asset :=
  {| asset_base_directory := None;
     asset_pattern := None;
     asset_group_names := None |}.

Definition renamed_asset : Asset :=
  {| asset_base_directory := None;
     asset_pattern := None;
     asset_group_names := Some ["x"; "y"] |}.

Definition foldered_asset : Asset :=
  {| asset_base_directory := Some "A";
     asset_pattern := None;
     asset_group_names := None |}.

Definition sorter_x : Sorter :=
  {| sorter_name := "x"; reverse := false; sorter_rule := lexical_rule |}.

(** A store with one folder per asset under [/data]. *)
Definition store (directory glob_directive : string) : result (list string) :=
  if String.eqb directory "/data/A"
  then Ok ["a_1.csv"; "a_2.csv"; "readme.txt"]
  else if String.eqb directory "/data" then Ok ["b_7.csv"]
  else Ok [].

(** A store that raises as soon as it is touched. *)
Definition untouchable_store (directory glob_directive : string)
  : result (list string) := Raise StoreError.

Definition empty_store (directory glob_directive : string)
  : result (list string) := Ok [].

(** Collaborators: requests carry no partition query, every request is
    well formed, and a batch definition matches a request on its names. *)
Definition accept_request (c : Connector) (r : BatchRequest unit)
  : result unit := Ok tt.

Definition same_names (bd : BatchDefinition) (r : BatchRequest unit) : bool :=
  String.eqb (bd_execution_environment_name bd)
             (br_execution_environment_name r)
  && String.eqb (bd_data_connector_name bd) (br_data_connector_name r)
  && match br_data_asset_name r, bd_data_asset_name bd with
     | Some a, Some b => String.eqb a b
     | Some _, None => false
     | None, _ => true
     end.

Definition no_query (q : unit) (l : list BatchDefinition)
  : list BatchDefinition := l.

Definition request_for (data_asset_name : string) : BatchRequest unit :=
  {| br_execution_environment_name := "env";
     br_data_connector_name := "conn";
     br_data_asset_name := Some data_asset_name;
     partition_request := None |}.

(** One asset kept in its own folder, no sorters. *)
Definition foldered_connector : Connector :=
  init "conn" "env" "/data" name_id_regex [("A", foldered_asset)] "*" [] None.

(** Two assets, the second one renaming the groups, and a sorter on [x]. *)
Definition renaming_connector : Connector :=
  init "conn" "env" "/data" name_id_regex
       [("A", plain_asset); ("B", renamed_asset)] "*"
       (build_sorters_from_config [sorter_x]) None.

(** The batch definition of [a_1.csv] under asset [A]. *)
Definition batch_a_1 : BatchDefinition :=
  {| bd_execution_environment_name := "env";
     bd_data_connector_name := "conn";
     bd_data_asset_name := Some "A";
     partition_definition := [("name", "a"); ("id", "1")] |}.

(** The records of the sorter example: fields [A] and [B]. *)
Definition record (a b : string) : BatchDefinition :=
  {| bd_execution_environment_name := "env";
     bd_data_connector_name := "conn";
     bd_data_asset_name := Some "A";
     partition_definition := [("A", a); ("B", b)] |}.

Definition sorter_A_desc : Sorter :=
  {| sorter_name := "A"; reverse := true; sorter_rule := numeric_rule |}.
Definition sorter_B_asc : Sorter :=
  {| sorter_name := "B"; reverse := false; sorter_rule := numeric_rule |}.

Definition sorted_connector : Connector :=
  init "conn" "env" "/data"
       {| pattern_of := name_id_pattern; group_names_of := ["A"; "B"] |}
       [("A", plain_asset)] "*"
       (build_sorters_from_config [sorter_A_desc; sorter_B_asc]) None.

(** The groups of [name_id_pattern] under one and the same name. *)
Definition same_name_connector : Connector :=
  init "conn" "env" "/data"
       {| pattern_of := name_id_pattern; group_names_of := ["name"; "name"] |}
       [("A", foldered_asset)] "*" [] None.

Definition same_name_refreshed : Connector :=
  snd (_refresh_data_references_cache store same_name_connector).

(** What [a_1.csv] maps to when both groups are called [name]. *)
Definition batch_named_1 : BatchDefinition :=
  {| bd_execution_environment_name := "env";
     bd_data_connector_name := "conn";
     bd_data_asset_name := Some "A";
     partition_definition := [("name", "1")] |}.

End Scenario.

(* ================================================================= *)
(** ** The value-lengths expectation: its configuration check

    [ExpectColumnValueLengthsToEqual.validate_configuration], with the
    assertions switched on as the interpreter has them by default. *)

Module ValueLengths.

(** What a keyword argument of a configuration may hold. *)
Inductive kwarg_value : Type :=
| KNone
| KBool (b : bool)
| KInt (z : Z)
| KFloat (q : Q)
| KStr (s : string).

(** [isinstance(v, (float, int))]: [bool] is a subclass of [int]. *)
Definition is_float_or_int (v : kwarg_value) : bool :=
  match v with
  | KBool _ | KInt _ | KFloat _ => true
  | KNone | KStr _ => false
  end.

Record ExpectationConfiguration : Type := { kwargs : dict kwarg_value }.

Section Validate.
(** The check of the base class is not part of the sources at hand: it
    returns ([None]) or raises something. *)
Variable SuperError : Type.
Variable super_validate_configuration :
  option ExpectationConfiguration -> option SuperError.

Inductive raised : Type :=
| FromSuper (e : SuperError)
| NoneHasNoKwargs
| InvalidExpectationConfigurationError (message : string).

Inductive outcome : Type :=
| Returned (b : bool)
| Raised (e : raised).

Definition validate_configuration
           (self_configuration : option ExpectationConfiguration)
           (configuration : option ExpectationConfiguration) : outcome :=
  match super_validate_configuration configuration with
  | Some e => Raised (FromSuper e)
  | None =>
      let configuration :=
        match configuration with
        | None => self_configuration
        | Some _ => configuration
        end in
      match configuration with
      | None => Raised NoneHasNoKwargs
      | Some configuration =>
          match dict_get "value" (kwargs configuration) with
          | None =>
              Raised (InvalidExpectationConfigurationError
                        "The length parameter 'value' is required")
          | Some v =>
              if is_float_or_int v then Returned true
              else Raised (InvalidExpectationConfigurationError
                             "given value must be numerical")
          end
      end
  end.
End Validate.

End ValueLengths.

(* ================================================================= *)
(** ** More scenarios *)

Module MoreScenario.
Import Scenario.

Definition bare_asset (folder : string) : Asset :=
  {| asset_base_directory := Some folder;
     asset_pattern := None;
     asset_group_names := None |}.

(** Two assets, each in its folder; the folder of the second one cannot
    be listed. *)
Definition two_folder_connector : Connector :=
  init "conn" "env" "/data" name_id_regex
       [("A", bare_asset "A"); ("B", bare_asset "B")] "*" [] None.

Definition half_store (directory glob_directive : string)
  : result (list string) :=
  if String.eqb directory "/data/A" then Ok ["a_1.csv"; "readme.txt"]
  else Raise StoreError.

(** One asset, sorted by name and then by falling id. *)
Definition sorter_name_asc : Sorter :=
  {| sorter_name := "name"; reverse := false; sorter_rule := lexical_rule |}.
Definition sorter_id_desc : Sorter :=
  {| sorter_name := "id"; reverse := true; sorter_rule := numeric_rule |}.

Definition ordered_connector : Connector :=
  init "conn" "env" "/data" name_id_regex [("A", bare_asset "A")] "*"
       (build_sorters_from_config [sorter_name_asc; sorter_id_desc]) None.

Definition mixed_store (directory glob_directive : string)
  : result (list string) :=
  if String.eqb directory "/data/A"
  then Ok ["b_7.csv"; "a_2.csv"; "b_10.csv"; "notes.txt"]
  else Ok [].

(** As [renaming_connector], but sorted by [name], one of the default
    group names. *)
Definition name_sorted_connector : Connector :=
  init "conn" "env" "/data" name_id_regex
       [("A", plain_asset); ("B", renamed_asset)] "*"
       (build_sorters_from_config [sorter_name_asc]) None.

(** Two assets that list the same folder under different patterns. *)
Definition txt_asset : Asset :=
  {| asset_base_directory := None;
     asset_pattern := Some ([Grp (Plus lower)] ++ lits ".txt");
     asset_group_names := Some ["name"] |}.

Definition shared_folder_connector : Connector :=
  init "conn" "env" "/data" name_id_regex
       [("A", plain_asset); ("B", txt_asset)] "*" [] None.

(** One name for the two groups of [name_id_pattern]. *)
Definition short_names_connector : Connector :=
  init "conn" "env" "/data"
       {| pattern_of := name_id_pattern; group_names_of := ["name"] |}
       [("A", foldered_asset)] "*" [] None.

Definition short_names_refreshed : Connector :=
  snd (_refresh_data_references_cache store short_names_connector).

(** What [a_1.csv] maps to when only the first group has a name. *)
Definition batch_name_a : BatchDefinition :=
  {| bd_execution_environment_name := "env";
     bd_data_connector_name := "conn";
     bd_data_asset_name := Some "A";
     partition_definition := [("name", "a")] |}.

Definition batch_of (name_ id : string) : BatchDefinition :=
  {| bd_execution_environment_name := "env";
     bd_data_connector_name := "conn";
     bd_data_asset_name := Some "A";
     partition_definition := [("name", name_); ("id", id)] |}.

End MoreScenario.

(* ================================================================= *)
(** * Properties *)

Unset Implicit Arguments.

(* ================================================================= *)
(** ** Dicts *)

Module DictFacts.

Section Facts.
Variable V : Type.
Implicit Types (d : dict V) (k : string) (v : V).

Lemma dict_get_set_eq : forall d k v, dict_get k (dict_set k v d) = Some v.
Proof.
  induction d as [|[k' v'] d IH]; intros k v; simpl.
  - now rewrite String.eqb_refl.
  - destruct (String.eqb k k') eqn:E; simpl; rewrite E; auto.
Qed.

Lemma dict_get_set_neq : forall d k k' v,
    k <> k' -> dict_get k (dict_set k' v d) = dict_get k d.
Proof.
  induction d as [|[k0 v0] d IH]; intros k k' v Hne; simpl.
  - apply String.eqb_neq in Hne. now rewrite Hne.
  - destruct (String.eqb k' k0) eqn:E; simpl.
    + apply String.eqb_eq in E. subst k0.
      apply String.eqb_neq in Hne. now rewrite Hne.
    + now rewrite IH.
Qed.

Lemma dict_get_in : forall d k v, dict_get k d = Some v -> In (k, v) d.
Proof.
  induction d as [|[k' v'] d IH]; intros k v; simpl; [discriminate|].
  destruct (String.eqb k k') eqn:E.
  - apply String.eqb_eq in E. intros [= ->]. subst. now left.
  - intros H. right. now apply IH.
Qed.

Lemma dict_get_none : forall d k,
    dict_get k d = None <-> ~ In k (dict_keys d).
Proof.
  induction d as [|[k' v'] d IH]; intros k; simpl.
  - tauto.
  - destruct (String.eqb k k') eqn:E.
    + apply String.eqb_eq in E. subst. split; [discriminate|tauto].
    + apply String.eqb_neq in E. rewrite IH. unfold dict_keys.
      split; intros H; [intros [H1|H1]; [congruence|tauto] | tauto].
Qed.

Lemma dict_keys_set_in : forall d k v,
    In k (dict_keys d) -> dict_keys (dict_set k v d) = dict_keys d.
Proof.
  induction d as [|[k' v'] d IH]; intros k v; simpl; [tauto|].
  destruct (String.eqb k k') eqn:E; simpl.
  - reflexivity.
  - apply String.eqb_neq in E. intros [H|H]; [congruence|].
    f_equal. now apply IH.
Qed.

Lemma dict_keys_set_notin : forall d k v,
    ~ In k (dict_keys d) -> dict_keys (dict_set k v d) = dict_keys d ++ [k].
Proof.
  induction d as [|[k' v'] d IH]; intros k v; simpl; [reflexivity|].
  intros H. destruct (String.eqb k k') eqn:E.
  - apply String.eqb_eq in E. subst. exfalso. apply H. now left.
  - simpl. f_equal. apply IH. intros Hin. apply H. now right.
Qed.
Lemma dict_set_fresh : forall d k v,
    ~ In k (dict_keys d) -> dict_set k v d = d ++ [(k, v)].
Proof.
  induction d as [|[k' v'] d IH]; intros k v H; simpl.
  - reflexivity.
  - destruct (String.eqb k k') eqn:E.
    + apply String.eqb_eq in E. subst. exfalso. apply H. now left.
    + f_equal. apply IH. intros Hin. apply H. now right.
Qed.

Lemma dict_set_last : forall d k v v',
    ~ In k (dict_keys d) -> dict_set k v' (d ++ [(k, v)]) = d ++ [(k, v')].
Proof.
  induction d as [|[k0 v0] d IH]; intros k v v' H; simpl.
  - now rewrite String.eqb_refl.
  - destruct (String.eqb k k0) eqn:E.
    + apply String.eqb_eq in E. subst. exfalso. apply H. now left.
    + f_equal. apply IH. intros Hin. apply H. now right.
Qed.

Lemma dict_keys_app : forall d1 d2,
    dict_keys (d1 ++ d2) = dict_keys d1 ++ dict_keys d2.
Proof. intros. unfold dict_keys. apply map_app. Qed.

(** Filling a dict key by key, with keys that are new and distinct. *)
Lemma fold_dict_set_fresh : forall (f : string -> V) ks d,
    NoDup ks ->
    (forall k, In k ks -> ~ In k (dict_keys d)) ->
    fold_left (fun acc k => dict_set k (f k) acc) ks d
    = d ++ map (fun k => (k, f k)) ks.
Proof.
  intros f. induction ks as [|k ks IH]; intros d Hnd Hfresh; simpl.
  - now rewrite app_nil_r.
  - inversion Hnd as [|? ? Hk Hnd']; subst.
    rewrite dict_set_fresh by (apply Hfresh; now left).
    rewrite IH; auto.
    + now rewrite <- app_assoc.
    + intros k' Hin. rewrite dict_keys_app. simpl.
      intros Hin'. apply in_app_or in Hin'.
      destruct Hin' as [Hin'|[->|[]]].
      * apply (Hfresh k'); [now right|exact Hin'].
      * exact (Hk Hin).
Qed.

Lemma dict_keys_NoDup_set : forall d k v,
    NoDup (dict_keys d) -> NoDup (dict_keys (dict_set k v d)).
Proof.
  intros d k v Hnd.
  destruct (in_dec string_dec k (dict_keys d)) as [Hin|Hout].
  - now rewrite dict_keys_set_in.
  - rewrite dict_keys_set_notin by assumption.
    apply NoDup_app; auto.
    + constructor; [tauto|constructor].
    + intros x Hx [<-|[]]. exact (Hout Hx).
Qed.

Lemma dict_in_get : forall d k v,
    NoDup (dict_keys d) -> In (k, v) d -> dict_get k d = Some v.
Proof.
  induction d as [|[k' v'] d IH]; intros k v Hnd Hin; simpl in *; [tauto|].
  inversion Hnd as [|? ? Hk Hnd']; subst.
  destruct Hin as [[= -> ->]|Hin].
  - now rewrite String.eqb_refl.
  - destruct (String.eqb k k') eqn:E.
    + apply String.eqb_eq in E. subst. exfalso. apply Hk.
      unfold dict_keys. change k' with (fst (k', v)). now apply in_map.
    + now apply IH.
Qed.
End Facts.

End DictFacts.
Import DictFacts.

(* ================================================================= *)
(** ** The decreasing-values expectation *)

Module DecreasingFacts.
Import Decreasing.

Lemma Qlt_bool_iff : forall x y, Qlt_bool x y = true <-> (x < y)%Q.
Proof.
  intros x y. unfold Qlt_bool. rewrite negb_true_iff.
  split; intros H.
  - apply Qnot_le_lt. intros Hle.
    apply Qle_bool_iff in Hle. congruence.
  - destruct (Qle_bool y x) eqn:E; [|reflexivity].
    apply Qle_bool_iff in E. exfalso. exact (Qlt_not_le _ _ H E).
Qed.

Lemma below_zero_iff : forall d, below_zero d = true <-> is_negative d.
Proof.
  intros [q| |]; simpl.
  - apply Qlt_bool_iff.
  - split; [discriminate|contradiction].
  - split; [constructor|reflexivity].
Qed.

Lemma at_most_zero_iff : forall d, at_most_zero d = true <-> is_nonpositive d.
Proof.
  intros [q| |]; simpl.
  - apply Qle_bool_iff.
  - split; [discriminate|contradiction].
  - split; [constructor|reflexivity].
Qed.

Section Facts.
Variable value : Type.
Variable subtract : value -> value -> option difference.

Lemma diff_from_length : forall (series : list (option value)) prev,
    length (diff_from subtract prev series) = length series.
Proof.
  induction series as [|x rest IH]; intros prev; simpl.
  - reflexivity.
  - now rewrite IH.
Qed.

Lemma diff_from_succ : forall (series : list (option value)) prev i,
    nth_error (diff_from subtract prev series) (S i) =
    match nth_error series (S i) with
    | None => None
    | Some x =>
        Some match nth_error series i, x with
             | Some (Some p), Some v => subtract v p
             | _, _ => None
             end
    end.
Proof.
  induction series as [|x rest IH]; intros prev i.
  - reflexivity.
  - destruct i as [|i].
    + simpl. destruct rest as [|y rest']; simpl.
      * reflexivity.
      * destruct x, y; reflexivity.
    + change (nth_error (diff_from subtract prev (x :: rest)) (S (S i)))
        with (nth_error (diff_from subtract x rest) (S i)).
      rewrite IH. reflexivity.
Qed.

Lemma marks_nth : forall (series : list (option value)) strictly i,
    nth_error (_pandas_column_values_decreasing subtract series strictly) i =
    match nth_error (diff subtract series) i with
    | None => None
    | Some o =>
        let d := match o with Some q => q | None => Finite (-1) end in
        Some (if truthy_flag strictly then below_zero d else at_most_zero d)
    end.
Proof.
  intros series strictly i. unfold _pandas_column_values_decreasing, fill_null.
  destruct (truthy_flag strictly);
    rewrite map_map, nth_error_map;
    destruct (nth_error (diff subtract series) i); reflexivity.
Qed.

(** C10 (amended). For a non-empty series, whatever the arithmetic of
    its column, the frame has one mark per element; the first difference
    is null; a position whose difference is null is marked [True] whatever
    [strictly] is; a position whose difference is [d] is marked [True] iff
    [d < 0] when [strictly] is truthy and iff [d <= 0] otherwise; and the
    difference at a later position is what the column's own subtraction
    gives for the element and the one before it, null when one of them is
    missing or the subtraction gives NaN. *)
Theorem decreasing_first_element_bye :
  forall (series : list (option value)) (strictly : option bool),
    series <> [] ->
    let marks := _pandas_column_values_decreasing subtract series strictly in
    length marks = length series /\
    nth_error (diff subtract series) 0 = Some None /\
    (forall i, nth_error (diff subtract series) i = Some None ->
               nth_error marks i = Some true) /\
    (forall i d, nth_error (diff subtract series) i = Some (Some d) ->
                 exists b, nth_error marks i = Some b /\
                           (b = true <->
                            if truthy_flag strictly then is_negative d
                            else is_nonpositive d)) /\
    (forall i, nth_error (diff subtract series) (S i) =
               match nth_error series (S i) with
               | None => None
               | Some x =>
                   Some match nth_error series i, x with
                        | Some (Some p), Some v => subtract v p
                        | _, _ => None
                        end
               end).
Proof.
  intros series strictly Hne marks. subst marks.
  split; [|split; [|split; [|split]]].
  - unfold _pandas_column_values_decreasing, fill_null.
    destruct (truthy_flag strictly);
      rewrite !length_map; apply diff_from_length.
  - destruct series as [|x rest]; [congruence|]. reflexivity.
  - intros i Hi. rewrite marks_nth, Hi. simpl.
    destruct (truthy_flag strictly); reflexivity.
  - intros i d Hi. rewrite marks_nth, Hi. simpl.
    eexists. split; [reflexivity|].
    destruct (truthy_flag strictly).
    + apply below_zero_iff.
    + apply at_most_zero_iff.
  - intros i. apply diff_from_succ.
Qed.

End Facts.

Lemma decreasing_first_element_bye_witness :
  Scenario.series_3_1_2 <> [] /\
  _pandas_column_values_decreasing int64_subtract Scenario.series_3_1_2
                                   (Some true)
  = [true; true; false] /\
  length (_pandas_column_values_decreasing int64_subtract
                                           Scenario.series_3_1_2 None) = 3.
Proof.
  assert (Hne : Scenario.series_3_1_2 <> []) by discriminate.
  split; [exact Hne|]. split; [reflexivity|].
  exact (proj1 (decreasing_first_element_bye
                  Z int64_subtract Scenario.series_3_1_2 None Hne)).
Defined.

(** C10 as stated fails on a column of 64-bit integers.  From the least
    to the greatest value the column rises, by [2^64 - 1]; the difference
    the column computes wraps around to [-1], so the second position is
    marked [True] although its difference from the previous value is not
    below zero. *)
Lemma rising_value_marked_after_wrap :
  diff int64_subtract Scenario.series_min_max = [None; Some (Finite (-1))] /\
  _pandas_column_values_decreasing int64_subtract Scenario.series_min_max
                                   (Some true) = [true; true] /\
  _pandas_column_values_decreasing int64_subtract Scenario.series_min_max
                                   None = [true; true] /\
  ((2 ^ 63 - 1) - (- 2 ^ 63) = 2 ^ 64 - 1)%Z /\
  ~ ((2 ^ 63 - 1) - (- 2 ^ 63) < 0)%Z.
Proof.
  split; [reflexivity|]. split; [reflexivity|]. split; [reflexivity|].
  split; [reflexivity|]. intros H. discriminate H.
Qed.

End DecreasingFacts.

Module ValidatesFacts.
Import Decreasing.

Section Facts.
Variables Configuration RuntimeConfiguration Metrics : Type.
Variables ResultFormat RawResultFormat Output : Type.
Variable get_validation_dependencies_metrics :
  Configuration -> option RuntimeConfiguration -> list string.
Variable extract_metrics :
  list string -> Metrics -> Configuration -> option RuntimeConfiguration ->
  dict metric_value.
Variable success_kwargs_mostly : option Q.
Variable runtime_result_format :
  RuntimeConfiguration -> option RawResultFormat.
Variable default_result_format : RawResultFormat.
Variable parse_result_format : RawResultFormat -> ResultFormat.
Variable _format_map_output : format_map_arguments ResultFormat -> Output.

Let arguments_of :=
  validates_arguments success_kwargs_mostly runtime_result_format
                      default_result_format parse_result_format.

Lemma validates_arguments_fields : forall metric_vals rc args,
    arguments_of metric_vals rc = Ok args ->
    unexpected_index_list args =
      dict_get "column_values.increasing.unexpected_index_list" metric_vals /\
    unexpected_list args =
      dict_get "column_values.decreasing.unexpected_values" metric_vals /\
    exists decreasing_count nonnull,
      dict_get "column_values.decreasing.count" metric_vals
        = Some (MNumber decreasing_count) /\
      dict_get "column_values.nonnull.count" metric_vals
        = Some (MNumber nonnull) /\
      success args =
        Qle_bool (match success_kwargs_mostly with
                  | Some m => m
                  | None => default_mostly
                  end) (decreasing_count / nonnull) /\
      unexpected_count args = (nonnull - decreasing_count)%Q.
Proof.
  intros metric_vals rc args. unfold arguments_of, validates_arguments.
  destruct (dict_get "column_values.decreasing.count" metric_vals)
    as [[dc| |]|] eqn:Ed; simpl; try discriminate.
  destruct (dict_get "column_values.nonnull.count" metric_vals)
    as [[nn| |]|] eqn:En; simpl; try discriminate.
  destruct (Qeq_bool nn 0); [discriminate|].
  intros [= <-]. simpl.
  split; [reflexivity|]. split; [reflexivity|].
  exists dc, nn. repeat split; reflexivity.
Qed.

Lemma validates_arguments_ignore_decreasing_index_list :
  forall metric_vals rc v,
    arguments_of
      (dict_set "column_values.decreasing.unexpected_index_list" v metric_vals)
      rc
    = arguments_of metric_vals rc.
Proof.
  intros metric_vals rc v. unfold arguments_of, validates_arguments.
  rewrite !dict_get_set_neq by discriminate. reflexivity.
Qed.

(** C9. Whenever [_validates] returns, what it returns is the formatted
    output of keyword arguments whose [unexpected_index_list] is the
    metric under ["column_values.increasing.unexpected_index_list"],
    whose [unexpected_list] is the metric under
    ["column_values.decreasing.unexpected_values"], and whose [success]
    and [unexpected_count] are computed from the metrics under
    ["column_values.decreasing.count"] and
    ["column_values.nonnull.count"]; a metric filed under
    ["column_values.decreasing.unexpected_index_list"] has no effect on
    them. *)
Theorem validates_index_list_from_increasing_key :
  forall (configuration : Configuration) (metrics : Metrics)
         (runtime_configuration : option RuntimeConfiguration)
         (out : Output),
    _validates get_validation_dependencies_metrics extract_metrics
               success_kwargs_mostly runtime_result_format
               default_result_format parse_result_format
               _format_map_output
               configuration metrics runtime_configuration = Ok out ->
    let metric_vals :=
      extract_metrics
        (get_validation_dependencies_metrics configuration
                                             runtime_configuration)
        metrics configuration runtime_configuration in
    exists args,
      out = _format_map_output args /\
      unexpected_index_list args =
        dict_get "column_values.increasing.unexpected_index_list"
                 metric_vals /\
      unexpected_list args =
        dict_get "column_values.decreasing.unexpected_values" metric_vals /\
      (exists decreasing_count nonnull,
          dict_get "column_values.decreasing.count" metric_vals
            = Some (MNumber decreasing_count) /\
          dict_get "column_values.nonnull.count" metric_vals
            = Some (MNumber nonnull) /\
          success args =
            Qle_bool (match success_kwargs_mostly with
                      | Some m => m
                      | None => default_mostly
                      end) (decreasing_count / nonnull) /\
          unexpected_count args = (nonnull - decreasing_count)%Q) /\
      (forall v,
          validates_arguments
            success_kwargs_mostly runtime_result_format
            default_result_format parse_result_format
            (dict_set "column_values.decreasing.unexpected_index_list" v
                      metric_vals)
            runtime_configuration
          = Ok args).
Proof.
  intros configuration metrics rc out H metric_vals.
  unfold _validates in H. fold metric_vals in H.
  destruct (validates_arguments success_kwargs_mostly runtime_result_format
              default_result_format parse_result_format metric_vals rc)
    as [args|e] eqn:E; [|discriminate].
  injection H as <-.
  exists args. split; [reflexivity|].
  destruct (validates_arguments_fields _ _ _ E) as (Hi & Hl & Hc).
  split; [exact Hi|]. split; [exact Hl|]. split; [exact Hc|].
  intros v.
  pose proof (validates_arguments_ignore_decreasing_index_list metric_vals rc v)
    as Hv.
  unfold arguments_of in Hv. rewrite Hv. exact E.
Qed.
End Facts.

Lemma validates_index_list_from_increasing_key_witness :
  _validates Scenario.decreasing_dependencies Scenario.metrics_as_given
             None Scenario.no_runtime_format "BASIC" Scenario.keep_format
             Scenario.output_is_arguments
             tt Scenario.metric_vals_decreasing None
  = Ok {| result_format := "BASIC";
          success := false;
          element_count := Some (MNumber 3);
          nonnull_count := Some (MNumber 3);
          unexpected_count := (3 - 2)%Q;
          unexpected_list := Some (MValues [2%Q]);
          unexpected_index_list := None |} /\
  exists args : format_map_arguments string,
    unexpected_index_list args = None /\
    dict_get "column_values.decreasing.unexpected_index_list"
             Scenario.metric_vals_decreasing = Some (MIndices [2%nat]) /\
    unexpected_list args = Some (MValues [2%Q]).
Proof.
  split; [reflexivity|].
  destruct (@validates_index_list_from_increasing_key
              unit unit (dict metric_value) string string
              (format_map_arguments string)
              Scenario.decreasing_dependencies Scenario.metrics_as_given
              None Scenario.no_runtime_format "BASIC" Scenario.keep_format
              Scenario.output_is_arguments
              tt Scenario.metric_vals_decreasing None _ eq_refl)
    as (args & _ & Hi & Hl & _).
  exists args. split; [exact Hi|]. split; [reflexivity|exact Hl].
Defined.

End ValidatesFacts.

(* ================================================================= *)
(** ** The reference cache *)

Module CacheFacts.

Section Facts.
Variable PartitionRequest : Type.
Variable _validate_batch_request :
  Connector -> BatchRequest PartitionRequest -> result unit.
Variable batch_definition_matches_batch_request :
  BatchDefinition -> BatchRequest PartitionRequest -> bool.
Variable select_from_partition_request :
  PartitionRequest -> list BatchDefinition -> list BatchDefinition.
Variable listing : string -> string -> result (list string).

Let refresh := _refresh_data_references_cache listing.

(** The refresh reads the configuration, never the cache it replaces. *)
Lemma refresh_assets_cache_irrelevant : forall names c v cache,
    refresh_assets listing (set_data_references_cache c v) names cache
    = refresh_assets listing c names cache.
Proof.
  induction names as [|a rest IH]; intros c v cache; simpl.
  - reflexivity.
  - change (_get_data_reference_list listing (set_data_references_cache c v)
                                     (Some a))
      with (_get_data_reference_list listing c (Some a)).
    destruct (_get_data_reference_list listing c (Some a)) as [refs|e].
    + rewrite IH. reflexivity.
    + reflexivity.
Qed.

Lemma refresh_sets_cache : forall c,
    exists cache,
      snd (refresh c) = set_data_references_cache c (Some cache) /\
      refresh_assets listing c (get_available_data_asset_names c) []
      = (fst (refresh c), cache).
Proof.
  intros c. unfold refresh, _refresh_data_references_cache.
  destruct (refresh_assets listing c (get_available_data_asset_names c) [])
    as [r cache].
  exists cache. split; reflexivity.
Qed.

(** C7. With the store and the configuration fixed, a second refresh
    gives the outcome and the connector of the first: the same cache, with
    the same asset keys, the same reference keys and the same batch
    definitions under them. *)
Theorem refresh_idempotent : forall c : Connector,
    refresh (snd (refresh c)) = refresh c /\
    exists cache, _data_references_cache (snd (refresh c)) = Some cache.
Proof.
  intros c.
  destruct (refresh_sets_cache c) as (cache & Hc & Hr).
  split.
  - rewrite Hc at 1.
    unfold refresh, _refresh_data_references_cache.
    change (get_available_data_asset_names
              (set_data_references_cache c (Some cache)))
      with (get_available_data_asset_names c).
    rewrite refresh_assets_cache_irrelevant.
    destruct (refresh_assets listing c (get_available_data_asset_names c) [])
      as [r cache'].
    reflexivity.
  - exists cache. rewrite Hc. reflexivity.
Qed.

Let get_batch_definitions :=
  get_batch_definition_list_from_batch_request
    _validate_batch_request batch_definition_matches_batch_request
    select_from_partition_request listing.
Let session_of :=
  session _validate_batch_request batch_definition_matches_batch_request
          select_from_partition_request listing.
Let runs_refresh_in :=
  runs_refresh (PartitionRequest := PartitionRequest)
               _validate_batch_request.

Lemma validate_sorters_keeps_cache : forall (r : BatchRequest PartitionRequest) c,
    _data_references_cache (snd (_validate_sorters_configuration r c))
    = _data_references_cache c.
Proof.
  intros r c. unfold _validate_sorters_configuration.
  destruct (Nat.ltb 0 (length (sorters c))); [|reflexivity].
  destruct (known_asset c (br_data_asset_name r)) as [asset|];
    [destruct (asset_group_names asset) as [g|];
     [destruct (truthy_list (Some g))|]|];
    repeat match goal with
           | |- context [if ?b then _ else _] => destruct b
           end; reflexivity.
Qed.

Lemma refresh_cache_some : forall c,
    is_none (_data_references_cache (snd (refresh c))) = false.
Proof.
  intros c. destruct (refresh_sets_cache c) as (cache & Hc & _).
  rewrite Hc. reflexivity.
Qed.

(** What a batch request does to the cache: nothing, unless it is the one
    that runs the refresh. *)
Lemma get_batch_definitions_cache : forall r c,
    _data_references_cache (snd (get_batch_definitions r c)) =
    if runs_refresh_in (CallGetBatchDefinitions r) c
    then _data_references_cache
           (snd (refresh (snd (_validate_sorters_configuration r c))))
    else _data_references_cache c.
Proof.
  intros r c.
  unfold get_batch_definitions, get_batch_definition_list_from_batch_request,
    runs_refresh_in, runs_refresh, bind, reads.
  destruct (_validate_batch_request c r) as [[]|e]; [|reflexivity].
  pose proof (validate_sorters_keeps_cache r c) as Hk.
  destruct (_validate_sorters_configuration r c) as [[[]|e] c1]; simpl in Hk;
    [|exact Hk].
  cbn [snd].
  destruct (_data_references_cache c1) as [cache|] eqn:Ec; simpl.
  - rewrite Ec.
    destruct (first_batch_definitions (cache_entries cache));
      simpl; [|congruence].
    destruct (Nat.ltb 0 (length (sorters c1))); simpl; congruence.
  - fold refresh.
    destruct (refresh c1) as [[[]|e] c2] eqn:Er; simpl; [|reflexivity].
    destruct (_data_references_cache c2) as [cache|] eqn:E2; simpl;
      [|congruence].
    destruct (first_batch_definitions (cache_entries cache));
      simpl; [|congruence].
    destruct (Nat.ltb 0 (length (sorters c2))); simpl; congruence.
Qed.

Lemma perform_cache_none : forall k c,
    is_none (_data_references_cache
               (perform _validate_batch_request
                        batch_definition_matches_batch_request
                        select_from_partition_request listing k c))
    = is_none (_data_references_cache c) && negb (runs_refresh_in k c).
Proof.
  intros [|r| |] c.
  - unfold runs_refresh_in. simpl.
    fold refresh. rewrite refresh_cache_some. now rewrite andb_false_r.
  - cbn [perform]. fold get_batch_definitions.
    rewrite get_batch_definitions_cache.
    destruct (runs_refresh_in (CallGetBatchDefinitions r) c) eqn:E.
    + rewrite refresh_cache_some. now rewrite andb_false_r.
    + now rewrite andb_true_r.
  - unfold runs_refresh_in. simpl. now rewrite andb_true_r.
  - unfold runs_refresh_in. simpl. now rewrite andb_true_r.
Qed.

Lemma session_cache_none : forall ks c,
    is_none (_data_references_cache (fst (session_of ks c)))
    = is_none (_data_references_cache c) && negb (snd (session_of ks c)).
Proof.
  unfold session_of.
  induction ks as [|k ks IH]; intros c; simpl.
  - now rewrite andb_true_r.
  - specialize (IH (perform _validate_batch_request
                            batch_definition_matches_batch_request
                            select_from_partition_request listing k c)).
    destruct (session _validate_batch_request
                      batch_definition_matches_batch_request
                      select_from_partition_request listing ks
                      (perform _validate_batch_request
                               batch_definition_matches_batch_request
                               select_from_partition_request listing k c))
      as [c' ran].
    simpl in *. rewrite IH, perform_cache_none.
    unfold runs_refresh_in.
    rewrite negb_orb. now rewrite andb_assoc.
Qed.

Lemma count_raises_iff_none : forall c,
    get_data_reference_list_count c = Raise ValueError
    <-> is_none (_data_references_cache c) = true.
Proof.
  intros c. unfold get_data_reference_list_count.
  destruct (_data_references_cache c); simpl; split; congruence.
Qed.


Lemma map_data_references_fresh : forall c a refs,
    NoDup refs ->
    map_data_references c a refs
    = map (fun r => (r, _map_data_reference_to_batch_definition_list
                          c r (Some a))) refs.
Proof.
  intros c a refs Hnd. unfold map_data_references.
  rewrite (fold_dict_set_fresh _
             (fun r => _map_data_reference_to_batch_definition_list
                         c r (Some a))); auto.
Qed.

(** The sub-cache a refresh builds for an asset. *)
Let sub_for (c : Connector) (a : string) : SubCache :=
  match _get_data_reference_list listing c (Some a) with
  | Ok refs => map_data_references c a refs
  | Raise _ => []
  end.

Lemma refresh_assets_fresh : forall c names cache cache',
    NoDup names ->
    (forall a, In a names -> ~ In a (dict_keys cache)) ->
    refresh_assets listing c names cache = (Ok tt, cache') ->
    cache' = cache ++ map (fun a => (a, sub_for c a)) names.
Proof.
  intros c. induction names as [|a rest IH]; intros cache cache' Hnd Hfresh H.
  - simpl in *. injection H as <-. now rewrite app_nil_r.
  - simpl in H. inversion Hnd as [|? ? Ha Hnd']; subst.
    assert (Hout : ~ In a (dict_keys cache)) by (apply Hfresh; now left).
    unfold sub_for. simpl.
    destruct (_get_data_reference_list listing c (Some a)) as [refs|e];
      [|discriminate].
    assert (Hset : dict_set a (map_data_references c a refs)
                            (dict_set a ([] : SubCache) cache)
                   = cache ++ [(a, map_data_references c a refs)]).
    { rewrite (dict_set_fresh _ cache a [] Hout).
      apply dict_set_last. exact Hout. }
    assert (H' : refresh_assets listing c rest
                   (cache ++ [(a, map_data_references c a refs)])
                 = (Ok tt, cache')).
    { rewrite <- H. f_equal. symmetry. exact Hset. }
    clear H. rename H' into H.
    apply IH in H; auto.
    + rewrite H, <- app_assoc. reflexivity.
    + intros a' Hin. rewrite dict_keys_app. simpl.
      intros Hin'. apply in_app_or in Hin'.
      destruct Hin' as [Hin'|[->|[]]].
      * apply (Hfresh a'); [now right|exact Hin'].
      * exact (Ha Hin).
Qed.

Lemma count_fold : forall (cache : Cache) n,
    fold_left (fun total sub => total + length (snd sub)) cache n
    = n + list_sum (map (fun sub => length (snd sub)) cache).
Proof.
  induction cache as [|sub cache IH]; intros n; simpl.
  - lia.
  - rewrite IH. lia.
Qed.

Lemma count_after_refresh : forall c c1,
    NoDup (get_available_data_asset_names c) ->
    (forall directory glob refs,
        listing directory glob = Ok refs -> NoDup refs) ->
    refresh c = (Ok tt, c1) ->
    get_data_reference_list_count c1 = Ok (listed_count listing c).
Proof.
  intros c c1 Hnames Hrefs H.
  unfold refresh, _refresh_data_references_cache in H.
  destruct (refresh_assets listing c (get_available_data_asset_names c) [])
    as [r cache] eqn:E.
  injection H as -> <-.
  apply refresh_assets_fresh in E; auto. simpl in E.
  unfold get_data_reference_list_count. simpl.
  rewrite count_fold, E, map_map. simpl. f_equal.
  unfold listed_count. f_equal. apply map_ext. intros a.
  unfold sub_for.
  destruct (_get_data_reference_list listing c (Some a)) as [refs|e] eqn:El;
    [|reflexivity].
  rewrite map_data_references_fresh by (eapply Hrefs; exact El).
  now rewrite length_map.
Qed.

(** C8. On a connector that starts without a cache, after any session of
    calls [get_data_reference_list_count] raises its error exactly when no
    refresh has run in the session, and returns a number otherwise.  After
    a refresh that went through, over distinct asset names and listings
    without repetition, the number is the count of the references the store
    lists over all assets, matched or not; when the store lists none, it
    is 0 and not an error. *)
Theorem count_raises_iff_never_refreshed :
  forall (c0 : Connector) (ks : list (call PartitionRequest)),
    _data_references_cache c0 = None ->
    let c := fst (session_of ks c0) in
    let ran := snd (session_of ks c0) in
    (get_data_reference_list_count c = Raise ValueError <-> ran = false) /\
    (ran = true -> exists n, get_data_reference_list_count c = Ok n) /\
    (forall c1,
        NoDup (get_available_data_asset_names c) ->
        (forall directory glob refs,
            listing directory glob = Ok refs -> NoDup refs) ->
        refresh c = (Ok tt, c1) ->
        get_data_reference_list_count c1 = Ok (listed_count listing c) /\
        (listed_count listing c = 0 ->
         get_data_reference_list_count c1 = Ok 0)).
Proof.
  intros c0 ks H0 c ran.
  pose proof (session_cache_none ks c0) as Hs.
  fold c in Hs. fold ran in Hs. rewrite H0 in Hs. simpl in Hs.
  split; [|split].
  - rewrite count_raises_iff_none, Hs. apply negb_true_iff.
  - intros Hran. rewrite Hran in Hs. simpl in Hs.
    unfold get_data_reference_list_count.
    destruct (_data_references_cache c) as [cache|]; [|discriminate].
    eexists. reflexivity.
  - intros c1 Hnames Hrefs Hr.
    pose proof (count_after_refresh c c1 Hnames Hrefs Hr) as Hc.
    split; [exact Hc|]. intros Hz. now rewrite Hc, Hz.
Qed.

End Facts.

Lemma store_lists_distinct : forall directory glob refs,
    Scenario.store directory glob = Ok refs -> NoDup refs.
Proof.
  intros directory glob refs. unfold Scenario.store.
  destruct (String.eqb directory "/data/A");
    [|destruct (String.eqb directory "/data")];
    intros [= <-]; repeat constructor; simpl; intuition discriminate.
Qed.

Lemma count_raises_iff_never_refreshed_witness :
  _data_references_cache Scenario.foldered_connector = None /\
  get_data_reference_list_count Scenario.foldered_connector
  = Raise ValueError /\
  (exists n,
      get_data_reference_list_count
        (fst (session Scenario.accept_request Scenario.same_names
                      Scenario.no_query Scenario.store
                      [CallGetBatchDefinitions (Scenario.request_for "A")]
                      Scenario.foldered_connector)) = Ok n) /\
  get_data_reference_list_count
    (snd (_refresh_data_references_cache Scenario.store
                                         Scenario.foldered_connector))
  = Ok 3 /\
  get_data_reference_list_count
    (snd (_refresh_data_references_cache Scenario.empty_store
                                         Scenario.foldered_connector))
  = Ok 0.
Proof.
  split; [reflexivity|].
  pose proof (@count_raises_iff_never_refreshed
                unit Scenario.accept_request Scenario.same_names
                Scenario.no_query Scenario.store
                Scenario.foldered_connector [] eq_refl) as T0.
  pose proof (@count_raises_iff_never_refreshed
                unit Scenario.accept_request Scenario.same_names
                Scenario.no_query Scenario.store
                Scenario.foldered_connector
                [CallGetBatchDefinitions (Scenario.request_for "A")] eq_refl)
    as T1.
  pose proof (@count_raises_iff_never_refreshed
                unit Scenario.accept_request Scenario.same_names
                Scenario.no_query Scenario.empty_store
                Scenario.foldered_connector [] eq_refl) as T2.
  split; [|split; [|split]].
  - apply (proj1 T0). reflexivity.
  - apply (proj1 (proj2 T1)). reflexivity.
  - apply (proj2 (proj2 T0)
                 (snd (_refresh_data_references_cache
                         Scenario.store Scenario.foldered_connector))).
    + repeat constructor. simpl. tauto.
    + exact store_lists_distinct.
    + reflexivity.
  - apply (proj2 (proj2 T2)
                 (snd (_refresh_data_references_cache
                         Scenario.empty_store Scenario.foldered_connector))).
    + repeat constructor. simpl. tauto.
    + intros directory glob refs [= <-]. constructor.
    + reflexivity.
    + reflexivity.
Defined.

End CacheFacts.

(* ================================================================= *)
(** ** Sorter validation *)

Module ValidationFacts.

Lemma str_in_iff : forall x l, str_in x l = true <-> In x l.
Proof.
  intros x l. unfold str_in. rewrite existsb_exists. split.
  - intros (y & Hy & E). apply String.eqb_eq in E. now subst.
  - intros H. exists x. split; [exact H|apply String.eqb_refl].
Qed.

Section Facts.
Variable PartitionRequest : Type.
Variable _validate_batch_request :
  Connector -> BatchRequest PartitionRequest -> result unit.
Variable batch_definition_matches_batch_request :
  BatchDefinition -> BatchRequest PartitionRequest -> bool.
Variable select_from_partition_request :
  PartitionRequest -> list BatchDefinition -> list BatchDefinition.

Let get_batch_definitions :=
  get_batch_definition_list_from_batch_request
    _validate_batch_request batch_definition_matches_batch_request
    select_from_partition_request.

(** The group names in force for a request: the asset's, if it overrides
    them, else the stored default. *)
Let effective_group_names (c : Connector)
    (r : BatchRequest PartitionRequest) : list string :=
  group_names_of (regex_config_for c (br_data_asset_name r)).

(** The two checks of [_validate_sorters_configuration]. *)
Let misaligned (c : Connector) (group_names : list string) : bool :=
  existsb (fun sorter => negb (str_in sorter group_names))
          (dict_keys (sorters c))
  || Nat.ltb (length group_names) (length (sorters c)).

Lemma misaligned_iff : forall c group_names,
    misaligned c group_names = true <->
    (exists sorter, In sorter (dict_keys (sorters c)) /\
                    ~ In sorter group_names)
    \/ length group_names < length (sorters c).
Proof.
  intros c g. unfold misaligned.
  rewrite orb_true_iff, existsb_exists, Nat.ltb_lt.
  split; (intros [(s & Hs & Hn)|H]; [left; exists s; split; [exact Hs|]|now right]).
  - apply negb_true_iff in Hn. rewrite <- str_in_iff. congruence.
  - apply negb_true_iff. rewrite <- str_in_iff in Hn.
    now destruct (str_in s g).
Qed.

(** The outcome of sorter validation, and what it leaves in the stored
    default: the group names it validated against. *)
Lemma validate_sorters_outcome : forall (r : BatchRequest PartitionRequest) c,
    0 < length (sorters c) ->
    let c1 := snd (_validate_sorters_configuration r c) in
    fst (_validate_sorters_configuration r c)
    = (if misaligned c (effective_group_names c r)
       then Raise DataConnectorError else Ok tt) /\
    group_names_of (_default_regex c1) = effective_group_names c r /\
    pattern_of (_default_regex c1) = pattern_of (_default_regex c) /\
    _data_references_cache c1 = _data_references_cache c.
Proof.
  intros r c Hs. apply Nat.ltb_lt in Hs.
  unfold _validate_sorters_configuration, effective_group_names, misaligned,
    regex_config_for.
  rewrite Hs.
  destruct (known_asset c (br_data_asset_name r)) as [asset|];
    [destruct (asset_group_names asset) as [[|g gs]|]|]; simpl;
    match goal with
    | |- context [existsb ?f ?l] => destruct (existsb f l)
    end; simpl;
    try match goal with
        | |- context [Nat.ltb ?a ?b] => destruct (Nat.ltb a b)
        end; simpl; repeat split; reflexivity.
Qed.

(** X20. For a request that passed request validation on a connector
    with sorters, the group names being those the connector holds when the
    request arrives (the asset's own, or else the stored defaults, which an
    earlier request may have overwritten): if a sorter's name is missing
    from them, or they are fewer than the sorters, serving the request
    raises the configuration error, leaves the cache as it was, and does
    not depend on the store, which is never asked; otherwise sorter
    validation returns without raising. *)
Theorem sorter_validation_fails_fast :
  forall (listing : string -> string -> result (list string))
         (c : Connector) (r : BatchRequest PartitionRequest),
    0 < length (sorters c) ->
    _validate_batch_request c r = Ok tt ->
    let group_names := effective_group_names c r in
    (((exists sorter, In sorter (dict_keys (sorters c)) /\
                      ~ In sorter group_names)
      \/ length group_names < length (sorters c)) ->
     fst (get_batch_definitions listing r c) = Raise DataConnectorError /\
     _data_references_cache (snd (get_batch_definitions listing r c))
     = _data_references_cache c /\
     forall listing',
       get_batch_definitions listing' r c = get_batch_definitions listing r c)
    /\
    (~ ((exists sorter, In sorter (dict_keys (sorters c)) /\
                        ~ In sorter group_names)
        \/ length group_names < length (sorters c)) ->
     fst (_validate_sorters_configuration r c) = Ok tt).
Proof.
  intros listing c r Hs Hv group_names. subst group_names.
  destruct (validate_sorters_outcome r c Hs) as (Hout & _ & _ & Hcache).
  split.
  - intros Hbad. apply misaligned_iff in Hbad. rewrite Hbad in Hout.
    assert (Hraise : forall l,
               get_batch_definitions l r c
               = (Raise DataConnectorError,
                  snd (_validate_sorters_configuration r c))).
    { intros l.
      unfold get_batch_definitions,
        get_batch_definition_list_from_batch_request, bind, reads.
      rewrite Hv.
      destruct (_validate_sorters_configuration r c) as [o c1].
      simpl in Hout. now rewrite Hout. }
    split; [|split].
    + now rewrite Hraise.
    + rewrite Hraise. exact Hcache.
    + intros l'. now rewrite !Hraise.
  - intros Hgood. rewrite Hout.
    destruct (misaligned c (effective_group_names c r)) eqn:E;
      [|reflexivity].
    exfalso. apply Hgood. now apply misaligned_iff.
Qed.

End Facts.

Lemma sorter_validation_fails_fast_witness :
  0 < length (sorters Scenario.renaming_connector) /\
  Scenario.accept_request Scenario.renaming_connector
                          (Scenario.request_for "A") = Ok tt /\
  fst (get_batch_definition_list_from_batch_request
         Scenario.accept_request Scenario.same_names Scenario.no_query
         Scenario.untouchable_store (Scenario.request_for "A")
         Scenario.renaming_connector) = Raise DataConnectorError.
Proof.
  assert (Hs : 0 < length (sorters Scenario.renaming_connector))
    by (simpl; lia).
  split; [exact Hs|]. split; [reflexivity|].
  apply (proj1 (@sorter_validation_fails_fast
                  unit Scenario.accept_request Scenario.same_names
                  Scenario.no_query Scenario.untouchable_store
                  Scenario.renaming_connector (Scenario.request_for "A")
                  Hs eq_refl)).
  left. exists "x". split.
  - simpl. now left.
  - simpl. intuition discriminate.
Defined.

(** C5 (what the code does instead). A request for asset [B], which
    renames the groups, overwrites the group names stored in
    [default_regex]: asset [A], which overrides nothing, is resolved against
    [B]'s group names from then on, and a request for [A] that the sorter
    validation rejected before is accepted after. *)
Theorem default_regex_overwritten_by_request :
  let serve := get_batch_definition_list_from_batch_request
                 Scenario.accept_request Scenario.same_names
                 Scenario.no_query Scenario.store in
  let c := Scenario.renaming_connector in
  let c' := snd (serve (Scenario.request_for "B") c) in
  group_names_of (_default_regex c) = ["name"; "id"] /\
  group_names_of (_default_regex c') = ["x"; "y"] /\
  group_names_of (regex_config_for c (Some "A")) = ["name"; "id"] /\
  group_names_of (regex_config_for c' (Some "A")) = ["x"; "y"] /\
  fst (serve (Scenario.request_for "A") c) = Raise DataConnectorError /\
  is_ok (fst (serve (Scenario.request_for "A") c')) = true.
Proof.
  vm_compute. repeat split; reflexivity.
Qed.

(** C4 (what the code does instead). The sorters are checked against the
    group names the connector holds when the request arrives, and these
    are the configured ones only until a request for an asset with names
    of its own has overwritten the stored defaults.  Asset [A] overrides
    nothing, so its names are the configured [name] and [id].  With a
    sorter on [x], a request for [A] is refused on the fresh connector, but
    served once a request for [B] has been made, although [x] is still not
    among the names of [A].  With a sorter on [name], a request for [A] is
    served on the fresh connector, but refused once a request for [B] has
    been made, although [name] is among the names of [A] and these are not
    fewer than the sorters. *)
Theorem sorter_validation_follows_stored_names :
  let serve := get_batch_definition_list_from_batch_request
                 Scenario.accept_request Scenario.same_names
                 Scenario.no_query Scenario.store in
  let c := Scenario.renaming_connector in
  let c' := snd (serve (Scenario.request_for "B") c) in
  let d := MoreScenario.name_sorted_connector in
  let d' := snd (serve (Scenario.request_for "B") d) in
  option_map asset_group_names (known_asset c' (Some "A")) = Some None /\
  group_names_of (_default_regex c) = ["name"; "id"] /\
  dict_keys (sorters c') = ["x"] /\
  fst (serve (Scenario.request_for "A") c) = Raise DataConnectorError /\
  is_ok (fst (serve (Scenario.request_for "A") c')) = true /\
  option_map asset_group_names (known_asset d' (Some "A")) = Some None /\
  group_names_of (_default_regex d) = ["name"; "id"] /\
  dict_keys (sorters d') = ["name"] /\
  is_ok (fst (serve (Scenario.request_for "A") d)) = true /\
  fst (serve (Scenario.request_for "B") d) = Raise DataConnectorError /\
  fst (serve (Scenario.request_for "A") d') = Raise DataConnectorError.
Proof.
  vm_compute. repeat split; reflexivity.
Qed.

End ValidationFacts.

(* ================================================================= *)
(** ** Batch specs *)

Module BatchSpecFacts.

(** What [build_batch_spec] returns: the reference the reverse mapping
    gives, joined onto the connector's own base directory; it raises when
    the reverse mapping raises or gives the empty reference. *)
Lemma build_batch_spec_path : forall c bd,
    build_batch_spec c bd =
    match _map_batch_definition_to_data_reference c bd with
    | Raise e => Raise e
    | Ok p =>
        if String.eqb p "" then Raise ValueError
        else Ok {| path := joinpath (base_directory c) p |}
    end.
Proof.
  intros c bd.
  unfold build_batch_spec, base_build_batch_spec,
    _generate_batch_spec_parameters_from_batch_definition.
  destruct (_map_batch_definition_to_data_reference c bd) as [p|e];
    [|reflexivity].
  destruct (String.eqb p ""); reflexivity.
Qed.

(** C3 (what the code does instead). Asset [A] keeps its files in the
    folder [A] of the base directory: its references are listed there, and
    [a_1.csv] is one of them; the batch spec built for its batch definition
    points to [/data/a_1.csv], not to the file [/data/A/a_1.csv] the
    reference was listed from. *)
Theorem batch_spec_ignores_asset_directory :
  let c := snd (_refresh_data_references_cache Scenario.store
                                               Scenario.foldered_connector) in
  data_asset_path c (Some "A") = "/data/A" /\
  _get_data_reference_list Scenario.store c (Some "A")
  = Ok ["a_1.csv"; "a_2.csv"; "readme.txt"] /\
  _map_data_reference_to_batch_definition_list c "a_1.csv" (Some "A")
  = Some [Scenario.batch_a_1] /\
  _map_batch_definition_to_data_reference c Scenario.batch_a_1
  = Ok "a_1.csv" /\
  build_batch_spec c Scenario.batch_a_1 = Ok {| path := "/data/a_1.csv" |} /\
  joinpath (data_asset_path c (Some "A")) "a_1.csv" = "/data/A/a_1.csv".
Proof.
  vm_compute. repeat split; reflexivity.
Qed.

End BatchSpecFacts.

(* ================================================================= *)
(** ** Stable sorting *)

Module SortFacts.

Section Basics.
Variable A : Type.
Variable leb : A -> A -> bool.

Lemma insert_perm : forall x l, Permutation (x :: l) (insert leb x l).
Proof.
  induction l as [|y l IH]; simpl.
  - apply Permutation_refl.
  - destruct (leb x y).
    + apply Permutation_refl.
    + eapply Permutation_trans; [apply perm_swap|].
      now apply perm_skip.
Qed.

Lemma stable_sort_perm : forall l, Permutation l (stable_sort leb l).
Proof.
  induction l as [|x l IH]; simpl.
  - apply perm_nil.
  - eapply Permutation_trans; [|apply insert_perm]. now apply perm_skip.
Qed.

Lemma stable_sort_in : forall l x, In x (stable_sort leb l) <-> In x l.
Proof.
  intros l x. split; apply Permutation_in;
    [apply Permutation_sym|]; apply stable_sort_perm.
Qed.
End Basics.

Lemma sort_batch_definition_list_perm : forall c l,
    Permutation l (_sort_batch_definition_list c l).
Proof.
  intros c l. unfold _sort_batch_definition_list.
  generalize (rev (dict_values (sorters c))). intros ss. revert l.
  induction ss as [|s ss IH]; intros l; simpl.
  - apply Permutation_refl.
  - eapply Permutation_trans; [|apply IH].
    unfold get_sorted_batch_definitions. apply stable_sort_perm.
Qed.

End SortFacts.

(* ================================================================= *)
(** ** Unmatched references *)

Module UnmatchedFacts.
Import ValidationFacts.

Lemma str_in_cons : forall x y l,
    str_in x (y :: l) = String.eqb x y || str_in x l.
Proof. reflexivity. Qed.

Lemma fold_dict_set_get : forall (V : Type) (f : string -> V) ks d r,
    dict_get r (fold_left (fun acc k => dict_set k (f k) acc) ks d)
    = if str_in r ks then Some (f r) else dict_get r d.
Proof.
  intros V f. induction ks as [|k ks IH]; intros d r; simpl.
  - reflexivity.
  - rewrite IH. change (existsb (String.eqb r) ks) with (str_in r ks).
    destruct (str_in r ks); [now rewrite orb_true_r|].
    rewrite orb_false_r.
    destruct (String.eqb r k) eqn:E.
    + apply String.eqb_eq in E. subst. apply dict_get_set_eq.
    + apply String.eqb_neq in E. now apply dict_get_set_neq.
Qed.

(** The forward mapping gives nothing or exactly one batch definition, so
    an entry of the cache is never an empty list. *)
Lemma forward_none_or_one : forall c data_reference data_asset_name,
    _map_data_reference_to_batch_definition_list
      c data_reference data_asset_name = None \/
    exists bd,
      _map_data_reference_to_batch_definition_list
        c data_reference data_asset_name = Some [bd].
Proof.
  intros c r a.
  unfold _map_data_reference_to_batch_definition_list,
    map_data_reference_string_to_batch_definition_list_using_regex.
  destruct (re_match _ r) as [groups|]; [right; eexists; reflexivity|now left].
Qed.

Lemma fold_dict_set_NoDup : forall (V : Type) (f : string -> V) ks d,
    NoDup (dict_keys d) ->
    NoDup (dict_keys (fold_left (fun acc k => dict_set k (f k) acc) ks d)).
Proof.
  intros V f. induction ks as [|k ks IH]; intros d H; simpl.
  - exact H.
  - apply IH. now apply dict_keys_NoDup_set.
Qed.

Section Facts.
Variable PartitionRequest : Type.
Variable _validate_batch_request :
  Connector -> BatchRequest PartitionRequest -> result unit.
Variable batch_definition_matches_batch_request :
  BatchDefinition -> BatchRequest PartitionRequest -> bool.
Variable select_from_partition_request :
  PartitionRequest -> list BatchDefinition -> list BatchDefinition.
Variable listing : string -> string -> result (list string).

Let refresh := _refresh_data_references_cache listing.
Let get_batch_definitions :=
  get_batch_definition_list_from_batch_request
    _validate_batch_request batch_definition_matches_batch_request
    select_from_partition_request listing.
Let forward := _map_data_reference_to_batch_definition_list.

(** An entry of the cache a refresh is filling: the asset is one of those
    already there or one of those refreshed, and its sub-cache, if
    refreshed, holds the mapping of each listed reference. *)
Let refreshed_entry (c : Connector) (a : string) (sub : SubCache)
  : Prop :=
  exists refs,
    _get_data_reference_list listing c (Some a) = Ok refs /\
    sub = map_data_references c a refs.

Lemma map_data_references_get : forall c a refs r,
    dict_get r (map_data_references c a refs)
    = if str_in r refs then Some (forward c r (Some a)) else None.
Proof.
  intros c a refs r. unfold map_data_references.
  rewrite (fold_dict_set_get _
             (fun k => _map_data_reference_to_batch_definition_list
                         c k (Some a))).
  reflexivity.
Qed.

Lemma map_data_references_NoDup : forall c a refs,
    NoDup (dict_keys (map_data_references c a refs)).
Proof.
  intros c a refs. unfold map_data_references.
  apply (fold_dict_set_NoDup _
           (fun k => _map_data_reference_to_batch_definition_list
                       c k (Some a))).
  constructor.
Qed.

Lemma refresh_assets_get : forall c names cache cache',
    refresh_assets listing c names cache = (Ok tt, cache') ->
    forall a,
      if str_in a names
      then exists sub, dict_get a cache' = Some sub /\ refreshed_entry c a sub
      else dict_get a cache' = dict_get a cache.
Proof.
  intros c. induction names as [|a0 rest IH]; intros cache cache' H a.
  - simpl in *. now injection H as <-.
  - simpl in H.
    destruct (_get_data_reference_list listing c (Some a0)) as [refs|e] eqn:El;
      [|discriminate].
    specialize (IH _ _ H a). rewrite str_in_cons.
    destruct (str_in a rest); [now rewrite orb_true_r|].
    rewrite orb_false_r.
    destruct (String.eqb a a0) eqn:E.
    + apply String.eqb_eq in E. subst a0.
      exists (map_data_references c a refs). split.
      * rewrite IH. apply dict_get_set_eq.
      * exists refs. split; [exact El|reflexivity].
    + apply String.eqb_neq in E. rewrite IH.
      rewrite !dict_get_set_neq by exact E. reflexivity.
Qed.

Lemma refresh_assets_NoDup : forall c names cache cache' o,
    NoDup (dict_keys cache) ->
    refresh_assets listing c names cache = (o, cache') ->
    NoDup (dict_keys cache').
Proof.
  intros c. induction names as [|a0 rest IH]; intros cache cache' o Hnd H.
  - simpl in H. now injection H as _ <-.
  - simpl in H.
    destruct (_get_data_reference_list listing c (Some a0)) as [refs|e].
    + eapply IH; [|exact H]. now do 2 apply dict_keys_NoDup_set.
    + injection H as _ <-. now apply dict_keys_NoDup_set.
Qed.

(** After a refresh that went through, the entries of the cache are the
    mappings of the listed references, asset by asset. *)
Lemma refreshed_cache_entries : forall c0 c,
    refresh c0 = (Ok tt, c) ->
    exists cache,
      _data_references_cache c = Some cache /\
      forall a r (e : option (list BatchDefinition)),
        (exists sub, In (a, sub) cache /\ In (r, e) sub) <->
        (exists refs,
            In a (get_available_data_asset_names c) /\
            _get_data_reference_list listing c (Some a) = Ok refs /\
            In r refs /\ forward c r (Some a) = e).
Proof.
  intros c0 c H. unfold refresh, _refresh_data_references_cache in H.
  destruct (refresh_assets listing c0 (get_available_data_asset_names c0) [])
    as [o cache] eqn:E.
  injection H as -> <-. exists cache. split; [reflexivity|].
  assert (Hnd : NoDup (dict_keys cache)).
  { eapply refresh_assets_NoDup; [|exact E]. simpl. constructor. }
  pose proof (refresh_assets_get _ _ _ _ E) as Hget.
  change (get_available_data_asset_names
            (set_data_references_cache c0 (Some cache)))
    with (get_available_data_asset_names c0).
  intros a r e. split.
  - intros (sub & Ha & Hr).
    apply dict_in_get in Ha; [|exact Hnd].
    specialize (Hget a).
    destruct (str_in a (get_available_data_asset_names c0)) eqn:Ea;
      [|simpl in Hget; congruence].
    destruct Hget as (sub' & Hs & refs & Hl & ->).
    assert (sub = map_data_references c0 a refs) by congruence. subst sub.
    apply dict_in_get in Hr; [|apply map_data_references_NoDup].
    rewrite map_data_references_get in Hr.
    destruct (str_in r refs) eqn:Er; [|discriminate].
    exists refs. split; [now apply str_in_iff|].
    split; [exact Hl|]. split; [now apply str_in_iff|].
    now injection Hr.
  - intros (refs & Ha & Hl & Hr & He).
    specialize (Hget a). apply str_in_iff in Ha. rewrite Ha in Hget.
    destruct Hget as (sub & Hs & refs' & Hl' & ->).
    change (_get_data_reference_list
              listing (set_data_references_cache c0 (Some cache)) (Some a))
      with (_get_data_reference_list listing c0 (Some a)) in Hl.
    assert (refs' = refs) by congruence. subst refs'.
    exists (map_data_references c0 a refs). split.
    + now apply dict_get_in.
    + apply dict_get_in. rewrite map_data_references_get.
      apply str_in_iff in Hr. rewrite Hr. now rewrite <- He.
Qed.

Lemma unmatched_fold : forall (cache : Cache) u0 r,
    In r (fold_left
            (fun unmatched sub =>
               unmatched ++
               map fst (filter (fun kv => is_none (snd kv)) (snd sub)))
            cache u0)
    <-> In r u0 \/ exists a sub, In (a, sub) cache /\ In (r, None) sub.
Proof.
  induction cache as [|[a0 sub0] cache IH]; intros u0 r; simpl.
  - split; [now left|]. intros [H|(a & sub & [] & _)]. exact H.
  - rewrite IH, in_app_iff, in_map_iff. split.
    + intros [[H|((r' & e) & <- & Hf)]|(a & sub & Ha & Hr)].
      * now left.
      * apply filter_In in Hf. destruct Hf as [Hin Hn]. simpl in *.
        destruct e; [discriminate|].
        right. exists a0, sub0. split; [now left|exact Hin].
      * right. exists a, sub. split; [now right|exact Hr].
    + intros [H|(a & sub & [[= <- <-]|Ha] & Hr)].
      * left. now left.
      * left. right. exists (r, None). split; [reflexivity|].
        apply filter_In. split; [exact Hr|reflexivity].
      * right. exists a, sub. split; assumption.
Qed.

Lemma first_batch_definitions_in : forall entries l bd,
    first_batch_definitions entries = Ok l ->
    In bd l -> exists rest, In (Some (bd :: rest)) entries.
Proof.
  induction entries as [|[[|bd0 rest0]|] entries IH]; intros l bd H Hin;
    simpl in H.
  - injection H as <-. destruct Hin.
  - discriminate.
  - destruct (first_batch_definitions entries) as [l'|e] eqn:E;
      [|discriminate].
    injection H as <-. destruct Hin as [<-|Hin].
    + exists rest0. now left.
    + destruct (IH _ _ eq_refl Hin) as (rest & Hr).
      exists rest. now right.
  - destruct (IH _ _ H Hin) as (rest & Hr). exists rest. now right.
Qed.

Lemma cache_entries_in : forall (cache : Cache) e,
    In e (cache_entries cache) ->
    exists a sub r, In (a, sub) cache /\ In (r, e) sub.
Proof.
  intros cache e H. unfold cache_entries in H.
  apply in_concat in H. destruct H as (es & Hes & He).
  apply in_map_iff in Hes. destruct Hes as (sub & <- & Hsub).
  unfold dict_values in Hsub, He.
  apply in_map_iff in Hsub. destruct Hsub as ((a & sub') & <- & Ha).
  apply in_map_iff in He. destruct He as ((r & e') & <- & Hr).
  exists a, sub', r. split; assumption.
Qed.

(** A request that meets a cache leaves it as it is. *)
Lemma get_batch_definitions_keeps_cache : forall r c cache o c',
    _data_references_cache c = Some cache ->
    get_batch_definitions r c = (o, c') ->
    _data_references_cache c' = Some cache.
Proof.
  intros r c cache o c' Hc H.
  unfold get_batch_definitions, get_batch_definition_list_from_batch_request,
    bind, reads in H.
  destruct (_validate_batch_request c r) as [[]|e];
    [|injection H as _ <-; exact Hc].
  pose proof (CacheFacts.validate_sorters_keeps_cache _ r c) as Hk.
  destruct (_validate_sorters_configuration r c) as [[[]|e] c1];
    simpl in Hk; rewrite Hc in Hk; [|injection H as _ <-; exact Hk].
  rewrite Hk in H. simpl in H. rewrite Hk in H.
  destruct (first_batch_definitions (cache_entries cache));
    [|injection H as _ <-; exact Hk].
  simpl in H.
  destruct (Nat.ltb 0 (length (sorters c1))); injection H as _ <-; exact Hk.
Qed.

(** With the cache in place, the batch definitions a request gets are
    among the first batch definitions of the cache entries. *)
Lemma get_batch_definitions_from_cache :
  (forall q l bd, In bd (select_from_partition_request q l) -> In bd l) ->
  forall r c cache bds c',
    _data_references_cache c = Some cache ->
    get_batch_definitions r c = (Ok bds, c') ->
    forall bd, In bd bds ->
               exists rest, In (Some (bd :: rest)) (cache_entries cache).
Proof.
  intros Hsel r c cache bds c' Hc H bd Hin.
  unfold get_batch_definitions, get_batch_definition_list_from_batch_request,
    bind, reads in H.
  destruct (_validate_batch_request c r) as [[]|e]; [|discriminate].
  pose proof (CacheFacts.validate_sorters_keeps_cache _ r c) as Hk.
  destruct (_validate_sorters_configuration r c) as [[[]|e] c1];
    [|discriminate].
  simpl in Hk. rewrite Hc in Hk. rewrite Hk in H. simpl in H.
  rewrite Hk in H.
  destruct (first_batch_definitions (cache_entries cache)) as [firsts|e]
    eqn:Ef; [|discriminate].
  simpl in H.
  assert (Hsub : In bd firsts).
  { assert (Hq : forall l,
               In bd match partition_request r with
                     | Some q => select_from_partition_request q l
                     | None => l
                     end -> In bd l).
    { intros l. destruct (partition_request r); [apply Hsel|auto]. }
    destruct (Nat.ltb 0 (length (sorters c1))); injection H as <- <-.
    - apply (Permutation_in
               _ (Permutation_sym
                    (SortFacts.sort_batch_definition_list_perm _ _))) in Hin.
      apply Hq in Hin. apply filter_In in Hin. tauto.
    - apply Hq in Hin. apply filter_In in Hin. tauto. }
  eapply first_batch_definitions_in; eassumption.
Qed.

(** C6 (amended). After a refresh that went through, with a partition
    query that only selects among the batch definitions it is given, and
    for every connector state that holds the cache the refresh left (the
    refreshed connector and the ones later requests leave):
    [get_unmatched_data_references] returns exactly the references that
    some asset lists and whose mapping under that asset's effective pattern
    failed; a request leaves the cache as it is, and each batch definition
    it gets is the first batch definition of a reference that an asset
    lists and whose mapping under that asset succeeded.  For a reference
    that no two assets list, this gives the claim as it was stated: if it is
    among the unmatched, its mapping failed under the asset listing it, so
    no batch definition stands for it; and if its mapping succeeded, it is
    not among the unmatched. *)
Theorem unmatched_references_reported :
  (forall q l bd, In bd (select_from_partition_request q l) -> In bd l) ->
  forall c0 c : Connector,
    refresh c0 = (Ok tt, c) ->
    let listed a r :=
      In a (get_available_data_asset_names c) /\
      exists refs,
        _get_data_reference_list listing c (Some a) = Ok refs /\ In r refs in
    exists cache unmatched,
      _data_references_cache c = Some cache /\
      (forall c1,
          _data_references_cache c1 = Some cache ->
          get_unmatched_data_references c1 = Ok unmatched) /\
      (forall r,
          In r unmatched <->
          exists a, listed a r /\ forward c r (Some a) = None) /\
      (forall c1 r bds c',
          _data_references_cache c1 = Some cache ->
          get_batch_definitions r c1 = (Ok bds, c') ->
          _data_references_cache c' = Some cache /\
          forall bd,
            In bd bds ->
            exists a ref rest,
              listed a ref /\ forward c ref (Some a) = Some (bd :: rest)) /\
      (forall r,
          (forall a a', listed a r -> listed a' r -> a = a') ->
          (In r unmatched ->
           forall a, listed a r -> forward c r (Some a) = None) /\
          (forall a l,
              listed a r -> forward c r (Some a) = Some l ->
              ~ In r unmatched)).
Proof.
  intros Hsel c0 c H listed.
  destruct (refreshed_cache_entries c0 c H) as (cache & Hc & Hentries).
  assert (Hlisted : forall a r e,
             (exists sub, In (a, sub) cache /\ In (r, e) sub) <->
             listed a r /\ forward c r (Some a) = e).
  { intros a r e. rewrite Hentries. unfold listed. split.
    - intros (refs & H1 & H2 & H3 & H4). eauto 6.
    - intros ((H1 & refs & H2 & H3) & H4). eauto 6. }
  exists cache. eexists. split; [exact Hc|].
  assert (Hiff : forall r,
             In r (fold_left
                     (fun unmatched sub =>
                        unmatched ++
                        map fst (filter (fun kv => is_none (snd kv))
                                        (snd sub)))
                     cache [])
             <-> exists a, listed a r /\ forward c r (Some a) = None).
  { intros r. rewrite unmatched_fold. split.
    - intros [[]|(a & sub & Ha & Hr)].
      exists a. apply Hlisted. exists sub. split; assumption.
    - intros (a & Ha). right. apply Hlisted in Ha.
      destruct Ha as (sub & Ha & Hr). exists a, sub. split; assumption. }
  split; [|split; [exact Hiff|split]].
  - intros c1 Hc1. unfold get_unmatched_data_references. rewrite Hc1.
    reflexivity.
  - intros c1 r bds c' Hc1 Hget.
    split; [exact (get_batch_definitions_keeps_cache r c1 cache _ c' Hc1
                                                     Hget)|].
    intros bd Hin.
    destruct (get_batch_definitions_from_cache Hsel r c1 cache bds c' Hc1
                                               Hget bd Hin) as (rest & He).
    apply cache_entries_in in He. destruct He as (a & sub & ref & Ha & Hr).
    exists a, ref, rest. apply Hlisted. exists sub. split; assumption.
  - intros r Hone. split.
    + intros Hin a Ha. apply Hiff in Hin. destruct Hin as (a' & Ha' & Hn).
      now rewrite (Hone a a' Ha Ha').
    + intros a l Ha Hl Hin. apply Hiff in Hin.
      destruct Hin as (a' & Ha' & Hn).
      rewrite (Hone a a' Ha Ha') in Hl. congruence.
Qed.

End Facts.

Lemma unmatched_references_reported_witness :
  (forall (q : unit) l bd, In bd (Scenario.no_query q l) -> In bd l) /\
  _refresh_data_references_cache Scenario.store Scenario.foldered_connector
  = (Ok tt, snd (_refresh_data_references_cache
                   Scenario.store Scenario.foldered_connector)) /\
  get_unmatched_data_references
    (snd (_refresh_data_references_cache
            Scenario.store Scenario.foldered_connector))
  = Ok ["readme.txt"] /\
  exists unmatched,
    get_unmatched_data_references
      (snd (_refresh_data_references_cache
              Scenario.store Scenario.foldered_connector))
    = Ok unmatched /\ In "readme.txt" unmatched.
Proof.
  assert (Hsel : forall (q : unit) l bd,
             In bd (Scenario.no_query q l) -> In bd l)
    by (intros q l bd H; exact H).
  split; [exact Hsel|]. split; [reflexivity|]. split; [reflexivity|].
  destruct (unmatched_references_reported
              unit Scenario.accept_request Scenario.same_names
              Scenario.no_query Scenario.store Hsel
              Scenario.foldered_connector
              (snd (_refresh_data_references_cache
                      Scenario.store Scenario.foldered_connector))
              eq_refl) as (cache & unmatched & Hc & Hu & Hiff & _).
  exists unmatched. split; [exact (Hu _ Hc)|].
  apply Hiff. exists "A". split; [split|reflexivity].
  - simpl. now left.
  - exists ["a_1.csv"; "a_2.csv"; "readme.txt"]. split; [reflexivity|].
    simpl. tauto.
Defined.

(** C6 as stated fails when two assets list the same reference under
    different patterns.  Assets [A] and [B] both list [b_7.csv]; it matches
    the pattern of [A] and not that of [B]: it is among the unmatched
    references, and a request for [A] returns its batch definition. *)
Lemma unmatched_reference_is_also_served :
  let c := snd (_refresh_data_references_cache
                  Scenario.store MoreScenario.shared_folder_connector) in
  fst (_refresh_data_references_cache
         Scenario.store MoreScenario.shared_folder_connector) = Ok tt /\
  _get_data_reference_list Scenario.store c (Some "A") = Ok ["b_7.csv"] /\
  _get_data_reference_list Scenario.store c (Some "B") = Ok ["b_7.csv"] /\
  _map_data_reference_to_batch_definition_list c "b_7.csv" (Some "A")
  = Some [MoreScenario.batch_of "b" "7"] /\
  _map_data_reference_to_batch_definition_list c "b_7.csv" (Some "B")
  = None /\
  get_unmatched_data_references c = Ok ["b_7.csv"] /\
  fst (get_batch_definition_list_from_batch_request
         Scenario.accept_request Scenario.same_names Scenario.no_query
         Scenario.store (Scenario.request_for "A") c)
  = Ok [MoreScenario.batch_of "b" "7"].
Proof.
  vm_compute. repeat split; reflexivity.
Qed.

End UnmatchedFacts.

(* ================================================================= *)
(** ** The sorter chain *)

Module SorterChainFacts.
Import SortFacts.

Section OneKey.
Variable A : Type.
Variable leb : A -> A -> bool.
Hypothesis leb_total : total leb.
Hypothesis leb_trans : transitive leb.

Lemma insert_sorted : forall x l,
    StronglySorted (fun a b => leb a b = true) l ->
    StronglySorted (fun a b => leb a b = true) (insert leb x l).
Proof.
  induction l as [|y l IH]; intros Hs; simpl.
  - constructor; constructor.
  - inversion Hs as [|? ? Hl Hy]; subst.
    destruct (leb x y) eqn:E.
    + constructor; [exact Hs|]. constructor; [exact E|].
      rewrite Forall_forall in *. intros z Hz. eauto.
    + constructor; [now apply IH|].
      rewrite Forall_forall in *. intros z Hz.
      apply (Permutation_in _ (Permutation_sym (insert_perm _ leb x l))) in Hz.
      destruct Hz as [<-|Hz]; [|now apply Hy].
      destruct (leb_total x y); congruence.
Qed.

Lemma stable_sort_sorted : forall l,
    StronglySorted (fun a b => leb a b = true) (stable_sort leb l).
Proof.
  induction l as [|x l IH]; simpl.
  - constructor.
  - now apply insert_sorted.
Qed.

(** Insertion does not reorder tied elements. *)
Lemma insert_keeps_ties : forall x y l,
    filter (tied leb x) (insert leb y l) = filter (tied leb x) (y :: l).
Proof.
  intros x y. induction l as [|z l IH]; simpl.
  - reflexivity.
  - destruct (leb y z) eqn:E; simpl.
    + reflexivity.
    + rewrite IH. simpl.
      destruct (tied leb x y) eqn:Ey, (tied leb x z) eqn:Ez; try reflexivity.
      unfold tied in Ey, Ez.
      apply andb_true_iff in Ey, Ez. destruct Ey as [_ Hyx], Ez as [Hxz _].
      rewrite (leb_trans _ _ _ Hyx Hxz) in E. discriminate.
Qed.

Lemma stable_sort_keeps_ties : forall x l,
    filter (tied leb x) (stable_sort leb l) = filter (tied leb x) l.
Proof.
  intros x. induction l as [|y l IH]; simpl.
  - reflexivity.
  - rewrite insert_keeps_ties. simpl. now rewrite IH.
Qed.

(** Two insertions of elements that are not tied can be swapped. *)
Lemma insert_comm : forall x y l,
    leb x y = true -> leb y x = false ->
    insert leb x (insert leb y l) = insert leb y (insert leb x l).
Proof.
  intros x y l Hxy Hyx. induction l as [|z l IH]; simpl.
  - now rewrite Hxy, Hyx.
  - destruct (leb y z) eqn:Eyz.
    + assert (Exz : leb x z = true) by eauto.
      rewrite Exz. simpl. now rewrite Hxy, Hyx, Eyz.
    + destruct (leb x z) eqn:Exz; simpl.
      * now rewrite Exz, Hyx, Eyz.
      * now rewrite Exz, Eyz, IH.
Qed.
End OneKey.

Section TwoKeys.
Variable A : Type.
Variables leA leB : A -> A -> bool.
Hypothesis leA_total : total leA.
Hypothesis leA_trans : transitive leA.
Hypothesis leB_total : total leB.
Hypothesis leB_trans : transitive leB.

Lemma refine_total : total (refine_leb leA leB).
Proof.
  intros x y. unfold refine_leb.
  destruct (leA x y) eqn:Exy, (leA y x) eqn:Eyx; auto.
  destruct (leA_total x y); congruence.
Qed.

Lemma refine_trans : transitive (refine_leb leA leB).
Proof.
  intros x y z. unfold refine_leb.
  destruct (leA x y) eqn:Exy; [|discriminate].
  destruct (leA y z) eqn:Eyz; [|intros _; discriminate].
  rewrite (leA_trans _ _ _ Exy Eyz).
  destruct (leA z x) eqn:Ezx.
  - rewrite (leA_trans _ _ _ Eyz Ezx), (leA_trans _ _ _ Ezx Exy).
    apply leB_trans.
  - intros _ _. reflexivity.
Qed.

(** Below everything on the second key, the first key alone decides
    where an element goes. *)
Lemma insert_first_key : forall x l,
    (forall z, In z l -> leB x z = true) ->
    insert leA x l = insert (refine_leb leA leB) x l.
Proof.
  intros x. induction l as [|z l IH]; intros H; simpl.
  - reflexivity.
  - unfold refine_leb at 1.
    rewrite (H z (or_introl eq_refl)).
    destruct (leA x z) eqn:E.
    + now destruct (leA z x).
    + f_equal. apply IH. intros z' Hz'. apply H. now right.
Qed.

Lemma refine_not_tied : forall x y,
    leB x y = false ->
    (refine_leb leA leB x y = true -> refine_leb leA leB y x = false) /\
    (refine_leb leA leB y x = true -> refine_leb leA leB x y = false).
Proof.
  intros x y HB. unfold refine_leb.
  destruct (leA x y), (leA y x); split; congruence.
Qed.

Lemma sort_after_insert : forall x m,
    StronglySorted (fun a b => leB a b = true) m ->
    stable_sort leA (insert leB x m)
    = insert (refine_leb leA leB) x (stable_sort leA m).
Proof.
  intros x. induction m as [|y m IH]; intros Hs.
  - reflexivity.
  - inversion Hs as [|? ? Hm Hy]; subst.
    rewrite Forall_forall in Hy.
    cbn [insert]. destruct (leB x y) eqn:E.
    + cbn [stable_sort]. apply insert_first_key.
      intros z Hz.
      apply (Permutation_in
               _ (Permutation_sym (insert_perm _ leA y (stable_sort leA m))))
        in Hz.
      destruct Hz as [<-|Hz]; [exact E|].
      apply stable_sort_in in Hz. eauto.
    + assert (Hyx : leB y x = true)
        by (destruct (leB_total x y); congruence).
      cbn [stable_sort]. rewrite (IH Hm).
      assert (Hbelow : forall z, In z (stable_sort leA m) -> leB y z = true).
      { intros z Hz. apply stable_sort_in in Hz. now apply Hy. }
      rewrite (insert_first_key y (stable_sort leA m) Hbelow).
      rewrite (insert_first_key
                 y (insert (refine_leb leA leB) x (stable_sort leA m))).
      * destruct (refine_total x y) as [Hr|Hr].
        -- symmetry. apply insert_comm;
             [exact refine_trans|exact Hr|].
           now apply (refine_not_tied x y E).
        -- apply insert_comm; [exact refine_trans|exact Hr|].
           now apply (refine_not_tied x y E).
      * intros z Hz.
        apply (Permutation_in
                 _ (Permutation_sym
                      (insert_perm _ (refine_leb leA leB) x
                                   (stable_sort leA m)))) in Hz.
        destruct Hz as [<-|Hz]; [exact Hyx|now apply Hbelow].
Qed.

(** Sorting by the second key and then, stably, by the first is sorting
    by the first key with the second as its tie-break. *)
Lemma two_passes : forall l,
    stable_sort leA (stable_sort leB l)
    = stable_sort (refine_leb leA leB) l.
Proof.
  induction l as [|x l IH]; simpl.
  - reflexivity.
  - rewrite sort_after_insert.
    + now rewrite IH.
    + now apply stable_sort_sorted.
Qed.
End TwoKeys.

Lemma key_leb_total : total key_leb.
Proof.
  intros a. induction a as [|x a IH]; intros [|y b]; simpl; auto.
  destruct (N.ltb x y) eqn:Exy; [now left|].
  destruct (N.ltb y x) eqn:Eyx; [now right|].
  apply N.ltb_ge in Exy, Eyx.
  assert (x = y) by lia. subst.
  rewrite N.eqb_refl. apply IH.
Qed.

Lemma key_leb_trans : transitive key_leb.
Proof.
  intros a. induction a as [|x a IH]; intros [|y b] [|z c]; simpl;
    try reflexivity; try discriminate.
  destruct (N.ltb x y) eqn:Exy.
  - apply N.ltb_lt in Exy.
    destruct (N.ltb y z) eqn:Eyz.
    + apply N.ltb_lt in Eyz. intros _ _.
      assert (E : N.ltb x z = true) by (apply N.ltb_lt; lia).
      now rewrite E.
    + destruct (N.eqb y z) eqn:E; [|intros _; discriminate].
      apply N.eqb_eq in E. subst. intros _ _.
      assert (E : N.ltb x z = true) by (apply N.ltb_lt; lia).
      now rewrite E.
  - destruct (N.eqb x y) eqn:E; [|discriminate].
    apply N.eqb_eq in E. subst y.
    destruct (N.ltb x z); [reflexivity|].
    destruct (N.eqb x z); [apply IH|intros _; discriminate].
Qed.

Lemma sorter_leb_total : forall s, total (sorter_leb s).
Proof.
  intros s x y. unfold sorter_leb.
  destruct (reverse s); apply key_leb_total.
Qed.

Lemma sorter_leb_trans : forall s, transitive (sorter_leb s).
Proof.
  intros s x y z. unfold sorter_leb.
  destruct (reverse s); intros H1 H2; eapply key_leb_trans; eassumption.
Qed.

Lemma lexicographic_total : forall ss, total (lexicographic_leb ss).
Proof.
  induction ss as [|s ss IH].
  - intros x y. now left.
  - change (total (refine_leb (sorter_leb s) (lexicographic_leb ss))).
    apply refine_total; [apply sorter_leb_total|exact IH].
Qed.

Lemma lexicographic_trans : forall ss, transitive (lexicographic_leb ss).
Proof.
  induction ss as [|s ss IH].
  - intros x y z _ _. reflexivity.
  - change (transitive (refine_leb (sorter_leb s) (lexicographic_leb ss))).
    apply refine_trans; [apply sorter_leb_trans|exact IH].
Qed.

Lemma stable_sort_trivial : forall (l : list BatchDefinition),
    stable_sort (lexicographic_leb []) l = l.
Proof.
  induction l as [|x l IH].
  - reflexivity.
  - change (stable_sort (lexicographic_leb []) (x :: l))
      with (insert (lexicographic_leb []) x
                   (stable_sort (lexicographic_leb []) l)).
    rewrite IH. now destruct l.
Qed.

(** The passes in reverse order of the sorters amount to one stable sort
    by the lexicographic order of the sorters. *)
Lemma passes_in_reverse : forall ss l,
    fold_left (fun l sorter => get_sorted_batch_definitions sorter l)
              (rev ss) l
    = stable_sort (lexicographic_leb ss) l.
Proof.
  induction ss as [|s ss IH]; intros l.
  - simpl. now rewrite stable_sort_trivial.
  - simpl rev. rewrite fold_left_app. simpl.
    rewrite IH. unfold get_sorted_batch_definitions.
    apply two_passes.
    + apply sorter_leb_total.
    + apply sorter_leb_trans.
    + apply lexicographic_total.
    + apply lexicographic_trans.
Qed.

(** C2. Whatever the batch definitions and the sorters: the passes
    [_sort_batch_definition_list] runs (the sorters in reverse declared
    order, each a stable sort on its field) return the list stably sorted by
    the lexicographic order of the sorters as declared.  The result is a
    rearrangement of the input; it is ordered by the first sorter, by the
    second among the elements the first holds equal, and so on; and the
    elements that all sorters hold equal keep the order of the input. *)
Theorem sort_by_reverse_passes :
  forall (c : Connector) (batch_definition_list : list BatchDefinition),
    let declared := dict_values (sorters c) in
    let sorted := _sort_batch_definition_list c batch_definition_list in
    sorted
    = fold_right get_sorted_batch_definitions batch_definition_list declared /\
    sorted = stable_sort (lexicographic_leb declared) batch_definition_list /\
    Permutation batch_definition_list sorted /\
    StronglySorted (fun x y => lexicographic_leb declared x y = true) sorted /\
    (forall x,
        filter (tied (lexicographic_leb declared) x) sorted
        = filter (tied (lexicographic_leb declared) x) batch_definition_list).
Proof.
  intros c l declared sorted.
  assert (E : sorted = stable_sort (lexicographic_leb declared) l)
    by apply passes_in_reverse.
  split; [|split; [exact E|split; [|split]]].
  - unfold sorted, _sort_batch_definition_list. fold declared.
    rewrite <- fold_left_rev_right, rev_involutive. reflexivity.
  - apply sort_batch_definition_list_perm.
  - rewrite E. apply stable_sort_sorted.
    + apply lexicographic_total.
    + apply lexicographic_trans.
  - intros x. rewrite E. apply stable_sort_keeps_ties.
    apply lexicographic_trans.
Qed.

(** The example of the spec: sorters [A desc, B asc] on the records
    (1,2), (1,1), (2,5). *)
Lemma sort_example :
  _sort_batch_definition_list
    Scenario.sorted_connector
    [Scenario.record "1" "2"; Scenario.record "1" "1"; Scenario.record "2" "5"]
  = [Scenario.record "2" "5"; Scenario.record "1" "1"; Scenario.record "1" "2"].
Proof. reflexivity. Qed.

End SorterChainFacts.

(* ================================================================= *)
(** ** The regular-expression engine: what a match reads *)

Module RegexFacts.

Section Calls.
Variable A : Type.

Lemma star_loop_calls : forall m : list ascii -> cont A -> option A,
    calls_on_rest m -> forall n, calls_on_rest (star_loop m n).
Proof.
  intros m Hm. induction n as [|n IH]; intros s k x H; simpl in H.
  - exists [], s. split; [reflexivity|exact H].
  - destruct (m s _) as [y|] eqn:E.
    + injection H as ->.
      apply Hm in E. destruct E as (pre & s' & -> & E).
      destruct (Nat.ltb (length s') (length (pre ++ s')));
        [|exists pre, s'; split; [reflexivity|exact E]].
      apply IH in E. destruct E as (pre2 & s2 & -> & E).
      exists (pre ++ pre2), s2. split; [now rewrite app_assoc|exact E].
    + exists [], s. split; [reflexivity|exact H].
Qed.

Lemma rmatch_calls : forall r, calls_on_rest (@rmatch A r).
Proof.
  induction r as [|c| |cs|r1 IH1 r2 IH2|r1 IH1 r2 IH2|r1 IH1];
    intros s k x H; simpl in H.
  - exists [], s. split; [reflexivity|exact H].
  - destruct s as [|y s']; [discriminate|].
    destruct (Ascii.eqb y c); [|discriminate].
    exists [y], s'. split; [reflexivity|exact H].
  - destruct s as [|y s']; [discriminate|].
    destruct (Ascii.eqb y newline); [discriminate|].
    exists [y], s'. split; [reflexivity|exact H].
  - destruct s as [|y s']; [discriminate|].
    destruct (in_class y cs); [|discriminate].
    exists [y], s'. split; [reflexivity|exact H].
  - apply IH1 in H. destruct H as (pre1 & s1 & -> & H).
    apply IH2 in H. destruct H as (pre2 & s2 & -> & H).
    exists (pre1 ++ pre2), s2. split; [now rewrite app_assoc|exact H].
  - destruct (rmatch r1 s k) as [y|] eqn:E.
    + injection H as ->. now apply IH1.
    + now apply IH2.
  - now apply (star_loop_calls _ IH1) in H.
Qed.
End Calls.

Section Stable.
Variable G : Type.
Variable t : list ascii.

Local Abbreviation R := (G * list ascii)%type.

Lemma bounded_after : forall (m : list ascii -> cont R -> option R) k,
    calls_on_rest m -> bounded k -> bounded (fun s => m s k).
Proof.
  intros m k Hm Hb s g rest H.
  apply Hm in H. destruct H as (pre & s' & -> & H).
  apply Hb in H. rewrite length_app. lia.
Qed.

Lemma agree_failed : forall x' : option R, x' = None -> forall x,
      (forall g, x = Some (g, t) -> False) -> agree_up_to t x x'.
Proof.
  intros x' -> x H. split; [reflexivity|].
  intros g Hg. destruct (H g Hg).
Qed.

Lemma suffix_same_length : forall (pre s' s : list ascii),
    s = pre ++ s' -> length s <= length s' -> s' = s.
Proof.
  intros pre s' s -> H. rewrite length_app in H.
  destruct pre as [|x pre]; [reflexivity|simpl in H; lia].
Qed.

Lemma star_loop_stable : forall (m : list ascii -> cont R -> option R),
    calls_on_rest m ->
    (forall k k', bounded k -> stable_under t k k' ->
                  stable_under t (fun s => m s k) (fun s => m s k')) ->
    forall k k',
      bounded k -> stable_under t k k' ->
      forall n' n u,
        length u <= n' -> length (u ++ t) <= n ->
        agree_up_to t (star_loop m n (u ++ t) k) (star_loop m n' u k').
Proof.
  intros m Hc Hm k k' Hb Hk.
  induction n' as [|n1 IH]; intros n u Hu Hn.
  - destruct u as [|? ?]; [|simpl in Hu; lia].
    simpl. destruct n as [|n]; simpl; [apply (Hk [])|].
    destruct (m t _) as [r|] eqn:E; [|apply (Hk [])].
    split; [discriminate|]. intros g [= ->].
    apply Hc in E. destruct E as (pre & s' & Ht & E).
    destruct (Nat.ltb (length s') (length t)) eqn:El.
    + exfalso. apply Nat.ltb_lt in El.
      apply (bounded_after (star_loop m n) k (star_loop_calls _ m Hc n) Hb)
        in E.
      lia.
    + apply Nat.ltb_ge in El.
      rewrite (suffix_same_length pre s' t Ht El) in E.
      exact (proj2 (Hk []) g E).
  - destruct n as [|n].
    + rewrite length_app in Hn.
      destruct u as [|? ?]; [|simpl in Hn; lia].
      assert (Ht : t = []) by (destruct t; [reflexivity|simpl in Hn; lia]).
      cbn [star_loop app].
      destruct (Hk []) as [Hf Hs]. cbn [app] in Hf, Hs.
      destruct (m [] _) as [r|] eqn:E; [|split; assumption].
      apply Hc in E. destruct E as (pre & s' & Hs' & E).
      symmetry in Hs'. apply app_eq_nil in Hs'. destruct Hs' as [_ ->].
      cbn [length Nat.ltb Nat.leb] in E.
      split.
      * intros Hn0. rewrite (Hf Hn0) in E. discriminate.
      * intros g Hg. rewrite (Hs g Hg) in E. exact (eq_sym E).
    + cbn [star_loop].
      set (Kin := fun s' : list ascii =>
                    if Nat.ltb (length s') (length (u ++ t))
                    then star_loop m n s' k else k s').
      set (Kin' := fun s' : list ascii =>
                     if Nat.ltb (length s') (length u)
                     then star_loop m n1 s' k' else k' s').
      assert (HbK : bounded Kin).
      { intros s g rest H. unfold Kin in H.
        destruct (Nat.ltb (length s) (length (u ++ t)));
          [|now apply Hb in H].
        now apply (bounded_after (star_loop m n) k
                                 (star_loop_calls _ m Hc n) Hb) in H. }
      assert (HsK : stable_under t Kin Kin').
      { intros u2. unfold Kin, Kin'. rewrite !length_app.
        destruct (Nat.ltb (length u2) (length u)) eqn:El.
        - apply Nat.ltb_lt in El.
          assert (El' : Nat.ltb (length u2 + length t)
                                (length u + length t) = true)
            by (apply Nat.ltb_lt; lia).
          rewrite El'. apply IH; [lia|]. rewrite length_app in *. lia.
        - apply Nat.ltb_ge in El.
          assert (El' : Nat.ltb (length u2 + length t)
                                (length u + length t) = false)
            by (apply Nat.ltb_ge; lia).
          rewrite El'. apply Hk. }
      destruct (Hm Kin Kin' HbK HsK u) as [Hf Hs].
      destruct (m (u ++ t) Kin) as [r|] eqn:E.
      * split; [discriminate|]. intros g [= ->].
        now rewrite (Hs g eq_refl).
      * rewrite (Hf eq_refl). apply Hk.
Qed.

Lemma rmatch_stable : forall r k k',
    bounded k -> stable_under t k k' ->
    stable_under t (fun s => @rmatch R r s k) (fun s => @rmatch R r s k').
Proof.
  assert (Hone : forall (test : ascii -> bool) (k k' : cont R),
             bounded k -> stable_under t k k' ->
             stable_under t
               (fun s => match s with
                         | x :: s' => if test x then k s' else None
                         | [] => None
                         end)
               (fun s => match s with
                         | x :: s' => if test x then k' s' else None
                         | [] => None
                         end)).
  { intros test k k' Hb Hk [|x u]; simpl.
    - apply agree_failed; [reflexivity|]. intros g H.
      destruct t as [|y t'] eqn:Et; [discriminate|].
      destruct (test y); [|discriminate].
      apply Hb in H. simpl in H. lia.
    - destruct (test x); [apply Hk|]. split; [reflexivity|discriminate]. }
  induction r as [|c| |cs|r1 IH1 r2 IH2|r1 IH1 r2 IH2|r1 IH1];
    intros k k' Hb Hk.
  - exact Hk.
  - exact (Hone (fun x => Ascii.eqb x c) k k' Hb Hk).
  - intros u.
    pose proof (Hone (fun x => negb (Ascii.eqb x newline)) k k' Hb Hk u) as H.
    simpl. destruct (u ++ t) as [|x s'], u as [|y u'];
      try destruct (Ascii.eqb x newline); try destruct (Ascii.eqb y newline);
      exact H.
  - exact (Hone (fun x => in_class x cs) k k' Hb Hk).
  - simpl. apply IH1.
    + apply (bounded_after (rmatch r2) k (rmatch_calls _ r2) Hb).
    + now apply IH2.
  - intros u. simpl.
    destruct (IH1 k k' Hb Hk u) as [Hf Hs].
    destruct (rmatch r1 (u ++ t) k) as [x|] eqn:E.
    + split; [discriminate|]. intros g [= ->]. now rewrite (Hs g eq_refl).
    + rewrite (Hf eq_refl). now apply IH2.
  - intros u. simpl.
    apply (star_loop_stable (rmatch r1) (rmatch_calls _ r1) IH1 k k' Hb Hk);
      lia.
Qed.
End Stable.

End RegexFacts.

(* ================================================================= *)
(** ** The pattern mapper: there and back *)

Module PatternMapperFacts.
Import RegexFacts.

Lemma firstn_consumed : forall (pre s' : list ascii),
    firstn (length (pre ++ s') - length s') (pre ++ s') = pre.
Proof.
  intros pre s'. rewrite length_app.
  replace (length pre + length s' - length s') with (length pre) by lia.
  rewrite firstn_app, firstn_all, Nat.sub_diag. simpl. apply app_nil_r.
Qed.

Lemma firstn_shift : forall (u u2 t : list ascii),
    firstn (length (u ++ t) - length (u2 ++ t)) (u ++ t)
    = firstn (length u - length u2) u.
Proof.
  intros u u2 t. rewrite !length_app.
  replace (length u + length t - (length u2 + length t))
    with (length u - length u2) by lia.
  rewrite firstn_app.
  replace (length u - length u2 - length u) with 0 by lia.
  simpl. apply app_nil_r.
Qed.

(** A match reads the literal text and the groups it returns, one after
    the other, and leaves the rest. *)
Lemma pmatch_reads : forall p s acc gs rest,
    pmatch p s acc = Some (gs, rest) ->
    exists caps,
      gs = rev acc ++ caps /\ length caps = ngroups p /\
      s = matched_text p caps ++ rest.
Proof.
  induction p as [|[c|r] p IH]; intros s acc gs rest H; simpl in H.
  - injection H as <- <-. exists []. now rewrite app_nil_r.
  - destruct s as [|x s']; [discriminate|].
    destruct (Ascii.eqb x c) eqn:E; [|discriminate].
    apply Ascii.eqb_eq in E. subst x.
    destruct (IH _ _ _ _ H) as (caps & Hg & Hl & Hs).
    exists caps. simpl. now rewrite <- Hs.
  - apply rmatch_calls in H. destruct H as (pre & s' & -> & H).
    rewrite firstn_consumed in H.
    destruct (IH _ _ _ _ H) as (caps & Hg & Hl & Hs).
    exists (pre :: caps). simpl in *.
    rewrite <- app_assoc in Hg. simpl in Hg.
    repeat split; [exact Hg|now rewrite Hl|].
    now rewrite <- app_assoc, <- Hs.
Qed.

Lemma pmatch_bounded : forall p acc, bounded (fun s => pmatch p s acc).
Proof.
  intros p acc s gs rest H.
  apply pmatch_reads in H. destruct H as (caps & _ & _ & ->).
  rewrite length_app. lia.
Qed.

(** Cutting the unread rest off the subject changes nothing to the match. *)
Lemma pmatch_stable : forall t p acc,
    stable_under t (fun s => pmatch p s acc) (fun s => pmatch p s acc).
Proof.
  intros t. induction p as [|[c|r] p IH]; intros acc u.
  - simpl. split; [discriminate|]. intros g [= <- Hu].
    assert (u = []).
    { apply (f_equal (@length ascii)) in Hu. rewrite length_app in Hu.
      destruct u; [reflexivity|simpl in Hu; lia]. }
    now subst.
  - destruct u as [|x u]; simpl.
    + apply agree_failed; [reflexivity|]. intros g H.
      destruct t as [|y t']; [discriminate|].
      destruct (Ascii.eqb y c); [|discriminate].
      apply pmatch_bounded in H. simpl in H. lia.
    + destruct (Ascii.eqb x c); [apply IH|]. split; [reflexivity|discriminate].
  - cbn [pmatch].
    apply (rmatch_stable
             _ t r
             (fun s' => pmatch p s'
                          (firstn (length (u ++ t) - length s') (u ++ t)
                           :: acc))
             (fun s' => pmatch p s'
                          (firstn (length u - length s') u :: acc))).
    + intros s g rest H. now apply pmatch_bounded in H.
    + intros u2. cbv beta. rewrite firstn_shift. apply IH.
Qed.

(** Matching the text a match read gives the same groups. *)
Lemma pmatch_again : forall p s gs rest,
    pmatch p s [] = Some (gs, rest) ->
    length gs = ngroups p /\
    s = matched_text p gs ++ rest /\
    pmatch p (matched_text p gs) [] = Some (gs, []).
Proof.
  intros p s gs rest H.
  destruct (pmatch_reads _ _ _ _ _ H) as (caps & Hg & Hl & Hs).
  simpl in Hg. subst caps. split; [exact Hl|]. split; [exact Hs|].
  rewrite Hs in H.
  exact (proj2 (pmatch_stable rest p [] (matched_text p gs)) gs H).
Qed.

Lemma string_of_list_ascii_app : forall a b,
    string_of_list_ascii (a ++ b)
    = String.append (string_of_list_ascii a) (string_of_list_ascii b).
Proof.
  induction a as [|x a IH]; intros b; simpl.
  - reflexivity.
  - now rewrite IH.
Qed.

(** [dict(zip(names, values))] keeps every pair when the names differ. *)
Lemma dict_of_items_fresh : forall (V : Type) (items d : dict V),
    NoDup (map fst items) ->
    (forall k, In k (map fst items) -> ~ In k (dict_keys d)) ->
    fold_left (fun d kv => dict_set (fst kv) (snd kv) d) items d = d ++ items.
Proof.
  intros V. induction items as [|[k v] items IH]; intros d Hnd Hfresh; simpl.
  - now rewrite app_nil_r.
  - inversion Hnd as [|? ? Hk Hnd']; subst.
    rewrite dict_set_fresh by (apply Hfresh; now left).
    rewrite IH; auto.
    + now rewrite <- app_assoc.
    + intros k' Hin. rewrite dict_keys_app. simpl.
      intros Hin'. apply in_app_or in Hin'.
      destruct Hin' as [Hin'|[->|[]]].
      * apply (Hfresh k'); [now right|exact Hin'].
      * exact (Hk Hin).
Qed.

Lemma combine_keys_NoDup : forall (names values : list string),
    NoDup names -> NoDup (map fst (combine names values)).
Proof.
  induction names as [|n names IH]; intros values Hnd; simpl.
  - constructor.
  - destruct values as [|v values]; simpl; [constructor|].
    inversion Hnd as [|? ? Hn Hnd']; subst.
    constructor; [|now apply IH].
    intros Hin. apply in_map_iff in Hin.
    destruct Hin as ((n' & v') & <- & Hin).
    apply in_combine_l in Hin. exact (Hn Hin).
Qed.

Lemma zipped_dict_get : forall (names values : list string) n v,
    NoDup names ->
    In (n, v) (combine names values) ->
    dict_get n (dict_of_items (combine names values)) = Some v.
Proof.
  intros names values n v Hnd Hin.
  pose proof (combine_keys_NoDup names values Hnd) as Hk.
  unfold dict_of_items.
  rewrite dict_of_items_fresh; [|exact Hk|intros k _ []].
  simpl. apply dict_in_get; assumption.
Qed.

(** The template of a pattern, filled with the groups of a match, is the
    text the match read. *)
Lemma fill_template : forall p names gs values,
    length gs = ngroups p ->
    ngroups p <= length names ->
    (forall n v,
        In (n, v) (combine names (map string_of_list_ascii gs)) ->
        dict_get n values = Some v) ->
    exists t,
      template_of p names = Some t /\
      fill t values = Some (string_of_list_ascii (matched_text p gs)).
Proof.
  induction p as [|[c|r] p IH]; intros names gs values Hl Hn Hv; simpl.
  - exists []. split; reflexivity.
  - destruct (IH names gs values Hl Hn Hv) as (t & Ht & Hf).
    exists (TLit c :: t). rewrite Ht. simpl. rewrite Hf. split; reflexivity.
  - simpl in Hl, Hn.
    destruct gs as [|g gs]; [discriminate|].
    destruct names as [|n names]; [simpl in Hn; lia|].
    simpl in Hl, Hn, Hv.
    destruct (IH names gs values) as (t & Ht & Hf); [lia|lia| |].
    { intros n' v' Hin. apply Hv. now right. }
    exists (THole n :: t). rewrite Ht. simpl.
    rewrite (Hv n (string_of_list_ascii g) (or_introl eq_refl)), Hf.
    simpl. rewrite string_of_list_ascii_app. split; reflexivity.
Qed.

(** C1 (amended). For references of 8-bit characters and a pattern
    that is a concatenation of literal characters and capture groups, each
    group made of the empty expression, single characters, the
    any-character dot, character sets, concatenation, alternation and
    greedy repetition only: a batch definition that the forward mapping
    made from a reference, under the effective pattern and group names of
    its asset, maps back to a reference which the forward mapping takes to
    that same batch definition, provided the effective group names are
    pairwise distinct and at least as many as the capture groups of the
    pattern, and both mappings run on the same connector configuration. *)
Theorem round_trip_with_distinct_names :
  forall (c : Connector) (data_reference data_asset_name : string)
         (bd : BatchDefinition),
    NoDup (group_names_of (regex_config_for c (Some data_asset_name))) ->
    ngroups (pattern_of (regex_config_for c (Some data_asset_name)))
    <= length (group_names_of (regex_config_for c (Some data_asset_name))) ->
    _map_data_reference_to_batch_definition_list
      c data_reference (Some data_asset_name) = Some [bd] ->
    exists back,
      _map_batch_definition_to_data_reference c bd = Ok back /\
      _map_data_reference_to_batch_definition_list
        c back (bd_data_asset_name bd) = Some [bd].
Proof.
  intros c ref a bd Hnd Hn H.
  unfold _map_data_reference_to_batch_definition_list,
    map_data_reference_string_to_batch_definition_list_using_regex,
    re_match in H.
  set (cfg := regex_config_for c (Some a)) in *.
  destruct (pmatch (pattern_of cfg) (list_ascii_of_string ref) [])
    as [[gs rest]|] eqn:E; [|discriminate].
  injection H as <-.
  destruct (pmatch_again _ _ _ _ E) as (Hl & _ & Hagain).
  destruct (fill_template
              (pattern_of cfg) (group_names_of cfg) gs
              (dict_of_items (combine (group_names_of cfg)
                                      (map string_of_list_ascii gs))) Hl Hn)
    as (t & Ht & Hf).
  { intros n v Hin. now apply zipped_dict_get. }
  exists (string_of_list_ascii (matched_text (pattern_of cfg) gs)). split.
  - unfold _map_batch_definition_to_data_reference,
      map_batch_definition_to_data_reference_string_using_regex.
    simpl. fold cfg. rewrite Ht, Hf. reflexivity.
  - unfold _map_data_reference_to_batch_definition_list,
      map_data_reference_string_to_batch_definition_list_using_regex,
      re_match.
    simpl. fold cfg.
    rewrite list_ascii_of_string_of_list_ascii, Hagain. reflexivity.
Qed.

Lemma round_trip_with_distinct_names_witness :
  NoDup (group_names_of
           (regex_config_for Scenario.foldered_connector (Some "A"))) /\
  ngroups (pattern_of
             (regex_config_for Scenario.foldered_connector (Some "A")))
  <= length (group_names_of
               (regex_config_for Scenario.foldered_connector (Some "A"))) /\
  _map_data_reference_to_batch_definition_list
    Scenario.foldered_connector "a_1.csv" (Some "A")
  = Some [Scenario.batch_a_1] /\
  exists back,
    _map_batch_definition_to_data_reference
      Scenario.foldered_connector Scenario.batch_a_1 = Ok back /\
    _map_data_reference_to_batch_definition_list
      Scenario.foldered_connector back (Some "A")
    = Some [Scenario.batch_a_1].
Proof.
  assert (Hnd : NoDup (group_names_of
                         (regex_config_for Scenario.foldered_connector
                                           (Some "A")))).
  { repeat constructor; simpl; intuition discriminate. }
  assert (Hn : ngroups (pattern_of
                          (regex_config_for Scenario.foldered_connector
                                            (Some "A")))
               <= length (group_names_of
                            (regex_config_for Scenario.foldered_connector
                                              (Some "A")))).
  { simpl. lia. }
  split; [exact Hnd|]. split; [exact Hn|]. split; [reflexivity|].
  exact (round_trip_with_distinct_names
           Scenario.foldered_connector "a_1.csv" "A" Scenario.batch_a_1
           Hnd Hn eq_refl).
Defined.

(** C1 as stated fails outside the two premises on the group names.
    With one name for both groups, the refresh maps [a_1.csv] to the batch
    definition with [name = 1]; this one maps back to [1_1.csv], which the
    pattern does not match.  With one name for two groups, the refresh maps
    [a_1.csv] to the batch definition with [name = a] alone, which has no
    value for the second group and maps back to nothing. *)
Lemma round_trip_fails_without_premises :
  ((exists sub,
       _data_references_cache Scenario.same_name_refreshed
       = Some [("A", sub)] /\
       In ("a_1.csv", Some [Scenario.batch_named_1]) sub) /\
   _map_data_reference_to_batch_definition_list
     Scenario.same_name_refreshed "a_1.csv" (Some "A")
   = Some [Scenario.batch_named_1] /\
   _map_batch_definition_to_data_reference
     Scenario.same_name_refreshed Scenario.batch_named_1 = Ok "1_1.csv" /\
   _map_data_reference_to_batch_definition_list
     Scenario.same_name_refreshed "1_1.csv"
     (bd_data_asset_name Scenario.batch_named_1) = None) /\
  ((exists sub,
       _data_references_cache MoreScenario.short_names_refreshed
       = Some [("A", sub)] /\
       In ("a_1.csv", Some [MoreScenario.batch_name_a]) sub) /\
   NoDup (group_names_of
            (regex_config_for MoreScenario.short_names_refreshed
                              (Some "A"))) /\
   length (group_names_of
             (regex_config_for MoreScenario.short_names_refreshed
                               (Some "A"))) = 1 /\
   ngroups (pattern_of
              (regex_config_for MoreScenario.short_names_refreshed
                                (Some "A"))) = 2 /\
   _map_data_reference_to_batch_definition_list
     MoreScenario.short_names_refreshed "a_1.csv" (Some "A")
   = Some [MoreScenario.batch_name_a] /\
   _map_batch_definition_to_data_reference
     MoreScenario.short_names_refreshed MoreScenario.batch_name_a
   = Raise UnresolvableReferenceError).
Proof.
  split.
  - split; [|repeat split; reflexivity].
    eexists. split; [reflexivity|]. simpl. now left.
  - split; [eexists; split; [reflexivity|]; simpl; now left|].
    split; [repeat constructor; simpl; tauto|].
    repeat split; reflexivity.
Qed.

End PatternMapperFacts.

(* ================================================================= *)
(** ** More on the connector: what a batch request changes *)

Module RequestFacts.

Section Facts.
Variable PartitionRequest : Type.
Variable _validate_batch_request :
  Connector -> BatchRequest PartitionRequest -> result unit.
Variable batch_definition_matches_batch_request :
  BatchDefinition -> BatchRequest PartitionRequest -> bool.
Variable select_from_partition_request :
  PartitionRequest -> list BatchDefinition -> list BatchDefinition.

Let serve :=
  get_batch_definition_list_from_batch_request
    _validate_batch_request batch_definition_matches_batch_request
    select_from_partition_request.

(** Two connectors that differ at most in the cache and in the stored
    default group names. *)
Let same_configuration (c c' : Connector) : Prop :=
  name c' = name c /\
  execution_environment_name c' = execution_environment_name c /\
  _data_context_root_directory c' = _data_context_root_directory c /\
  _base_directory c' = _base_directory c /\
  _glob_directive c' = _glob_directive c /\
  pattern_of (_default_regex c') = pattern_of (_default_regex c) /\
  assets c' = assets c /\
  sorters c' = sorters c.

Lemma same_configuration_refl : forall c, same_configuration c c.
Proof. intros c. repeat split. Qed.

Lemma same_configuration_trans : forall c1 c2 c3,
    same_configuration c1 c2 -> same_configuration c2 c3 ->
    same_configuration c1 c3.
Proof.
  intros c1 c2 c3 H12 H23. unfold same_configuration in *.
  repeat match goal with H : _ /\ _ |- _ => destruct H end.
  repeat split; congruence.
Qed.

Lemma validate_sorters_frame : forall (r : BatchRequest PartitionRequest) c,
    same_configuration c (snd (_validate_sorters_configuration r c)) /\
    (sorters c = [] -> snd (_validate_sorters_configuration r c) = c).
Proof.
  intros r c. unfold _validate_sorters_configuration.
  destruct (sorters c) as [|s ss] eqn:Es; simpl.
  - split; [apply same_configuration_refl|reflexivity].
  - split; [|discriminate].
    destruct (known_asset c (br_data_asset_name r)) as [asset|];
      [destruct (asset_group_names asset) as [[|g gs]|]|]; simpl;
      repeat match goal with
             | |- context [if ?b then _ else _] => destruct b
             end; simpl; repeat split; try reflexivity.
Qed.

Lemma refresh_frame : forall listing c,
    same_configuration c (snd (_refresh_data_references_cache listing c)) /\
    _default_regex (snd (_refresh_data_references_cache listing c))
    = _default_regex c.
Proof.
  intros listing c.
  destruct (CacheFacts.refresh_sets_cache listing c) as (cache & Hc & _).
  rewrite Hc. repeat split.
Qed.

(** The connector a batch request leaves: the one it met, the one sorter
    validation left, or that one refreshed. *)
Lemma serve_state : forall listing r c,
    let c1 := snd (_validate_sorters_configuration r c) in
    snd (serve listing r c) = c \/
    snd (serve listing r c) = c1 \/
    snd (serve listing r c) = snd (_refresh_data_references_cache listing c1).
Proof.
  intros listing r c c1. subst c1.
  unfold serve, get_batch_definition_list_from_batch_request, bind, reads.
  destruct (_validate_batch_request c r) as [[]|e]; [|now left].
  destruct (_validate_sorters_configuration r c) as [[[]|e] c1]; cbn [snd];
    [|right; now left].
  destruct (is_none (_data_references_cache c1)).
  - right. right.
    destruct (_refresh_data_references_cache listing c1) as [[[]|e] c2];
      cbn [snd]; [|reflexivity].
    destruct (_data_references_cache c2) as [cache|]; [|reflexivity].
    destruct (first_batch_definitions (cache_entries cache)); [|reflexivity].
    destruct (Nat.ltb 0 (length (sorters c2))); reflexivity.
  - right. left.
    destruct (_data_references_cache c1) as [cache|]; [|reflexivity].
    destruct (first_batch_definitions (cache_entries cache)); [|reflexivity].
    destruct (Nat.ltb 0 (length (sorters c1))); reflexivity.
Qed.

Lemma serve_keeps_sorters : forall listing r c,
    sorters (snd (serve listing r c)) = sorters c.
Proof.
  intros listing r c.
  destruct (validate_sorters_frame r c) as [Hv _].
  destruct (refresh_frame listing (snd (_validate_sorters_configuration r c)))
    as [Hr _].
  destruct (serve_state listing r c) as [->|[->| ->]].
  - reflexivity.
  - apply Hv.
  - apply (same_configuration_trans _ _ _ Hv Hr).
Qed.

(** What a batch request returns went through the sorter chain when there
    are sorters. *)
Lemma serve_result_sorted : forall listing r c bds c',
    0 < length (sorters c) ->
    serve listing r c = (Ok bds, c') ->
    exists l, bds = _sort_batch_definition_list c' l.
Proof.
  intros listing r c bds c' Hs H.
  pose proof (serve_keeps_sorters listing r c) as Hk.
  rewrite H in Hk. cbn [snd] in Hk.
  apply Nat.ltb_lt in Hs. rewrite <- Hk in Hs.
  unfold serve, get_batch_definition_list_from_batch_request, bind, reads
    in H.
  destruct (_validate_batch_request c r) as [[]|e]; [|discriminate].
  destruct (_validate_sorters_configuration r c) as [[[]|e] c1];
    [|discriminate].
  destruct (is_none (_data_references_cache c1)).
  - destruct (_refresh_data_references_cache listing c1) as [[[]|e] c2];
      [|discriminate].
    destruct (_data_references_cache c2) as [cache|]; [|discriminate].
    destruct (first_batch_definitions (cache_entries cache));
      [|discriminate].
    destruct (Nat.ltb 0 (length (sorters c2))) eqn:E2;
      injection H as <- <-; [eexists; reflexivity|congruence].
  - destruct (_data_references_cache c1) as [cache|]; [|discriminate].
    destruct (first_batch_definitions (cache_entries cache));
      [|discriminate].
    destruct (Nat.ltb 0 (length (sorters c1))) eqn:E1;
      injection H as <- <-; [eexists; reflexivity|congruence].
Qed.

(** X1. Whatever the request, the store and the outcome, serving a batch
    request leaves the connector's names, directories, glob directive,
    stored pattern, assets and sorters as they were: it can only change the
    cache and the stored default group names, and without sorters it leaves
    the stored defaults alone. *)
Theorem batch_request_frame :
  forall (listing : string -> string -> result (list string))
         (r : BatchRequest PartitionRequest) (c : Connector),
    let c' := snd (serve listing r c) in
    name c' = name c /\
    execution_environment_name c' = execution_environment_name c /\
    _data_context_root_directory c' = _data_context_root_directory c /\
    _base_directory c' = _base_directory c /\
    _glob_directive c' = _glob_directive c /\
    pattern_of (_default_regex c') = pattern_of (_default_regex c) /\
    assets c' = assets c /\
    sorters c' = sorters c /\
    (sorters c = [] -> _default_regex c' = _default_regex c).
Proof.
  intros listing r c c'. subst c'.
  destruct (validate_sorters_frame r c) as [Hv Hv0].
  destruct (refresh_frame listing (snd (_validate_sorters_configuration r c)))
    as [Hr Hr0].
  assert (Hsame : same_configuration c (snd (serve listing r c))).
  { destruct (serve_state listing r c) as [->|[->| ->]].
    - apply same_configuration_refl.
    - exact Hv.
    - eapply same_configuration_trans; eassumption. }
  destruct Hsame as (H1 & H2 & H3 & H4 & H5 & H6 & H7 & H8).
  repeat split; try assumption.
  intros Hs.
  destruct (serve_state listing r c) as [->|[->| ->]].
  - reflexivity.
  - now rewrite Hv0.
  - rewrite Hr0. now rewrite Hv0.
Qed.

(** With the cache in place a batch request runs the same way whatever
    the store. *)
Lemma cached_request_runs :
  forall (listing : string -> string -> result (list string))
         (r : BatchRequest PartitionRequest) (c : Connector) (cache : Cache),
    _data_references_cache c = Some cache ->
    forall l,
      serve l r c = serve listing r c /\
      _data_references_cache (snd (serve l r c)) = Some cache.
Proof.
  intros listing r c cache Hc l.
  unfold serve, get_batch_definition_list_from_batch_request, bind, reads.
  destruct (_validate_batch_request c r) as [[]|e]; [|now split].
  pose proof (CacheFacts.validate_sorters_keeps_cache _ r c) as Hk.
  destruct (_validate_sorters_configuration r c) as [[[]|e] c1];
    cbn [snd] in *; rewrite Hc in Hk; [|now split].
  rewrite Hk. cbn [is_none]. rewrite Hk.
  destruct (first_batch_definitions (cache_entries cache));
    [|now split].
  destruct (Nat.ltb 0 (length (sorters c1))); now split.
Qed.

(** X2. Once the cache is there, a batch request never asks the store:
    its outcome and the connector it leaves are the same for every store,
    and the cache stays as it was. *)
Theorem cached_request_ignores_store :
  forall (listing listing' : string -> string -> result (list string))
         (r : BatchRequest PartitionRequest) (c : Connector) (cache : Cache),
    _data_references_cache c = Some cache ->
    serve listing r c = serve listing' r c /\
    _data_references_cache (snd (serve listing r c)) = Some cache.
Proof.
  intros listing listing' r c cache Hc.
  split.
  - destruct (cached_request_runs listing r c cache Hc listing') as [-> _].
    reflexivity.
  - apply (cached_request_runs listing r c cache Hc listing).
Qed.

(** X9. Sorter validation may overwrite the stored group names, but doing
    it again for the same request changes nothing more and ends the same
    way. *)
Theorem validate_sorters_idempotent :
  forall (r : BatchRequest PartitionRequest) (c : Connector),
    _validate_sorters_configuration
      r (snd (_validate_sorters_configuration r c))
    = _validate_sorters_configuration r c.
Proof.
  intros r c.
  assert (Hsnd : forall (A : Type) (b1 b2 : bool) (x y z : A) (c1 : Connector),
             snd (if b1 then (x, c1) else if b2 then (y, c1) else (z, c1))
             = c1)
    by (intros A [|] [|] x y z c1; reflexivity).
  unfold _validate_sorters_configuration at 2 3.
  destruct (Nat.ltb 0 (length (sorters c))) eqn:Es.
  - cbv zeta. rewrite Hsnd.
    destruct (known_asset c (br_data_asset_name r)) as [asset|] eqn:Ea;
      [destruct (asset_group_names asset) as [[|g gs]|] eqn:Eg|];
      unfold _validate_sorters_configuration; cbv zeta;
      unfold known_asset in *; simpl;
      rewrite ?Es, ?Ea, ?Eg; reflexivity.
  - cbn [snd]. unfold _validate_sorters_configuration. now rewrite Es.
Qed.

End Facts.

Lemma cached_request_ignores_store_witness :
  _data_references_cache
    (snd (_refresh_data_references_cache Scenario.store
                                         Scenario.foldered_connector))
  <> None /\
  get_batch_definition_list_from_batch_request
    Scenario.accept_request Scenario.same_names Scenario.no_query
    Scenario.store (Scenario.request_for "A")
    (snd (_refresh_data_references_cache Scenario.store
                                         Scenario.foldered_connector))
  = get_batch_definition_list_from_batch_request
      Scenario.accept_request Scenario.same_names Scenario.no_query
      Scenario.untouchable_store (Scenario.request_for "A")
      (snd (_refresh_data_references_cache Scenario.store
                                           Scenario.foldered_connector)).
Proof.
  split; [discriminate|].
  exact (proj1 (cached_request_ignores_store
                  unit Scenario.accept_request Scenario.same_names
                  Scenario.no_query Scenario.store Scenario.untouchable_store
                  (Scenario.request_for "A")
                  (snd (_refresh_data_references_cache
                          Scenario.store Scenario.foldered_connector))
                  _ eq_refl)).
Defined.

End RequestFacts.

(* ================================================================= *)
(** ** More on the connector: what a refresh leaves *)

Module RefreshFacts.

Lemma fold_app_concat : forall (A B : Type) (f : A -> list B) l acc,
    fold_left (fun acc x => acc ++ f x) l acc = acc ++ concat (map f l).
Proof.
  intros A B f. induction l as [|x l IH]; intros acc; simpl.
  - now rewrite app_nil_r.
  - now rewrite IH, app_assoc.
Qed.

(** The entries of a cache are the unmatched ones and those that give a
    first batch definition. *)
Lemma entries_split : forall entries firsts,
    first_batch_definitions entries = Ok firsts ->
    length entries = length (filter is_none entries) + length firsts.
Proof.
  induction entries as [|[[|bd rest]|] entries IH]; intros firsts H;
    simpl in *.
  - now injection H as <-.
  - discriminate.
  - destruct (first_batch_definitions entries) as [l|e]; [|discriminate].
    injection H as <-. simpl. rewrite (IH l eq_refl). lia.
  - now rewrite (IH firsts H).
Qed.

Lemma unmatched_count : forall sub : SubCache,
    length (map fst (filter (fun kv => is_none (snd kv)) sub))
    = length (filter is_none (dict_values sub)).
Proof.
  induction sub as [|[r e] sub IH]; simpl.
  - reflexivity.
  - destruct (is_none e); simpl; now rewrite <- IH.
Qed.

Lemma count_of_entries : forall cache : Cache,
    list_sum (map (fun sub => length (snd sub)) cache)
    = length (cache_entries cache).
Proof.
  unfold cache_entries, dict_values.
  induction cache as [|[a sub] cache IH]; simpl.
  - reflexivity.
  - now rewrite length_app, length_map, IH.
Qed.

Lemma unmatched_of_entries : forall cache : Cache,
    length (concat
              (map (fun sub : string * SubCache =>
                      map fst (filter (fun kv => is_none (snd kv)) (snd sub)))
                   cache))
    = length (filter is_none (cache_entries cache)).
Proof.
  unfold cache_entries.
  induction cache as [|[a sub] cache IH]; simpl.
  - reflexivity.
  - rewrite filter_app, !length_app, IH. f_equal. apply unmatched_count.
Qed.

(** X5. With the cache in place, the count of references is the number
    of unmatched references plus the number of batch definitions a request
    starts from, whenever these can be collected. *)
Theorem count_is_unmatched_plus_matched :
  forall (c : Connector) (cache : Cache) (firsts : list BatchDefinition),
    _data_references_cache c = Some cache ->
    first_batch_definitions (cache_entries cache) = Ok firsts ->
    exists unmatched,
      get_unmatched_data_references c = Ok unmatched /\
      get_data_reference_list_count c
      = Ok (length unmatched + length firsts).
Proof.
  intros c cache firsts Hc Hf.
  unfold get_unmatched_data_references, get_data_reference_list_count.
  rewrite Hc. eexists. split; [reflexivity|]. f_equal.
  rewrite CacheFacts.count_fold. simpl.
  rewrite (fold_app_concat _ _
             (fun sub : string * SubCache =>
                map fst (filter (fun kv => is_none (snd kv)) (snd sub)))).
  simpl. rewrite count_of_entries, unmatched_of_entries.
  now apply entries_split.
Qed.

Section Facts.
Variable listing : string -> string -> result (list string).

Let refresh := _refresh_data_references_cache listing.
Let entry (c : Connector) (a : string) : string * SubCache :=
  (a, listed_entries listing c a).

Lemma refresh_assets_run : forall c names cache,
    NoDup names ->
    (forall a, In a names -> ~ In a (dict_keys cache)) ->
    (forall directory glob refs,
        listing directory glob = Ok refs -> NoDup refs) ->
    refresh_assets listing c names cache =
    match first_failure listing c names with
    | None => (Ok tt, cache ++ map (entry c) names)
    | Some (done, a, e) =>
        (Raise e, cache ++ map (entry c) done ++ [(a, [])])
    end.
Proof.
  intros c. induction names as [|a rest IH]; intros cache Hnd Hfresh Hrefs.
  - simpl. now rewrite app_nil_r.
  - inversion Hnd as [|? ? Ha Hnd']; subst.
    assert (Hout : ~ In a (dict_keys cache)) by (apply Hfresh; now left).
    cbn [refresh_assets first_failure].
    destruct (_get_data_reference_list listing c (Some a)) as [refs|e] eqn:El.
    + assert (Hset : dict_set a (map_data_references c a refs)
                              (dict_set a ([] : SubCache) cache)
                     = cache ++ [entry c a]).
      { rewrite (dict_set_fresh _ cache a [] Hout).
        rewrite dict_set_last by exact Hout.
        unfold entry, listed_entries. rewrite El.
        rewrite CacheFacts.map_data_references_fresh; [reflexivity|].
        eapply Hrefs. exact El. }
      change (dict_set a (map_data_references c a refs)
                       (dict_set a [] cache))
        with (dict_set a (map_data_references c a refs)
                       (dict_set a ([] : SubCache) cache)).
      rewrite Hset, IH; auto.
      * destruct (first_failure listing c rest) as [[[done b] e]|];
          simpl; now rewrite <- !app_assoc.
      * intros a' Hin. rewrite dict_keys_app. simpl.
        intros Hin'. apply in_app_or in Hin'.
        destruct Hin' as [Hin'|[->|[]]].
        -- apply (Hfresh a'); [now right|exact Hin'].
        -- exact (Ha Hin).
    + simpl. f_equal. exact (dict_set_fresh _ cache a [] Hout).
Qed.

(** X3. Over distinct asset names and listings without repetition, a
    refresh leaves one cache entry per asset in the order of the assets,
    holding one entry per listed reference in the order of the listing,
    each with what the reference maps to; when a listing raises, the
    refresh raises with it and leaves the entries of the assets before,
    and an empty one for the asset that failed. *)
Theorem refresh_as_expected : forall c : Connector,
    NoDup (get_available_data_asset_names c) ->
    (forall directory glob refs,
        listing directory glob = Ok refs -> NoDup refs) ->
    refresh c
    = (fst (refresh_outcome listing c),
       set_data_references_cache c (Some (snd (refresh_outcome listing c)))).
Proof.
  intros c Hnames Hrefs.
  unfold refresh, _refresh_data_references_cache, refresh_outcome.
  rewrite refresh_assets_run; auto.
  destruct (first_failure listing c (get_available_data_asset_names c))
    as [[[done b] e]|]; reflexivity.
Qed.

(** X4. When the listing of an asset raises, the connector is left with a
    cache that stops at this asset: from then on the count of references no
    longer raises, it counts the references of the assets before, and a
    batch request is served from this cache whatever the store has
    become. *)
Theorem failed_refresh_leaves_a_cache :
  forall (c : Connector) (done : list string) (a : string) (e : exn),
    NoDup (get_available_data_asset_names c) ->
    (forall directory glob refs,
        listing directory glob = Ok refs -> NoDup refs) ->
    first_failure listing c (get_available_data_asset_names c)
    = Some (done, a, e) ->
    let c' := snd (refresh c) in
    fst (refresh c) = Raise e /\
    _data_references_cache c'
    = Some (map (entry c) done ++ [(a, [])]) /\
    get_data_reference_list_count c'
    = Ok (list_sum (map (fun b => length (listed_entries listing c b)) done)) /\
    forall (PartitionRequest : Type) validate matches select
           (r : BatchRequest PartitionRequest) listing',
      get_batch_definition_list_from_batch_request
        validate matches select listing' r c'
      = get_batch_definition_list_from_batch_request
          validate matches select listing r c'.
Proof.
  intros c done a e Hnames Hrefs Hfail c'. subst c'.
  unfold refresh, _refresh_data_references_cache.
  rewrite refresh_assets_run by (auto; intros b _ []).
  rewrite Hfail. cbn [fst snd app].
  split; [reflexivity|]. split; [reflexivity|]. split.
  - unfold get_data_reference_list_count. simpl.
    rewrite CacheFacts.count_fold. simpl. f_equal.
    rewrite map_app, list_sum_app, map_map. simpl. lia.
  - intros PR validate matches select r listing'.
    match goal with
    | |- get_batch_definition_list_from_batch_request _ _ _ _ _ ?c' = _ =>
        exact (proj1 (RequestFacts.cached_request_runs
                        PR validate matches select listing r c'
                        _ eq_refl listing'))
    end.
Qed.

End Facts.

Lemma half_store_lists_distinct : forall directory glob refs,
    MoreScenario.half_store directory glob = Ok refs -> NoDup refs.
Proof.
  intros directory glob refs. unfold MoreScenario.half_store.
  destruct (String.eqb directory "/data/A"); [|discriminate].
  intros [= <-]. repeat constructor; simpl; intuition discriminate.
Qed.

Lemma two_folder_names_distinct :
  NoDup (get_available_data_asset_names MoreScenario.two_folder_connector).
Proof. repeat constructor; simpl; intuition discriminate. Qed.

Lemma refresh_as_expected_witness :
  NoDup (get_available_data_asset_names Scenario.foldered_connector) /\
  (forall directory glob refs,
      Scenario.store directory glob = Ok refs -> NoDup refs) /\
  _data_references_cache
    (snd (_refresh_data_references_cache Scenario.store
                                         Scenario.foldered_connector))
  = Some [("A", [("a_1.csv", Some [Scenario.batch_a_1]);
                 ("a_2.csv",
                  Some [{| bd_execution_environment_name := "env";
                           bd_data_connector_name := "conn";
                           bd_data_asset_name := Some "A";
                           partition_definition :=
                             [("name", "a"); ("id", "2")] |}]);
                 ("readme.txt", None)])].
Proof.
  assert (Hn : NoDup (get_available_data_asset_names
                        Scenario.foldered_connector))
    by (repeat constructor; simpl; tauto).
  split; [exact Hn|]. split; [exact CacheFacts.store_lists_distinct|].
  rewrite (refresh_as_expected Scenario.store Scenario.foldered_connector
                               Hn CacheFacts.store_lists_distinct).
  reflexivity.
Defined.

Lemma failed_refresh_leaves_a_cache_witness :
  NoDup (get_available_data_asset_names MoreScenario.two_folder_connector) /\
  first_failure MoreScenario.half_store MoreScenario.two_folder_connector
                (get_available_data_asset_names
                   MoreScenario.two_folder_connector)
  = Some (["A"], "B", StoreError) /\
  fst (_refresh_data_references_cache MoreScenario.half_store
                                      MoreScenario.two_folder_connector)
  = Raise StoreError /\
  get_data_reference_list_count
    (snd (_refresh_data_references_cache MoreScenario.half_store
                                         MoreScenario.two_folder_connector))
  = Ok 2.
Proof.
  split; [exact two_folder_names_distinct|]. split; [reflexivity|].
  destruct (failed_refresh_leaves_a_cache
              MoreScenario.half_store MoreScenario.two_folder_connector
              ["A"] "B" StoreError two_folder_names_distinct
              half_store_lists_distinct eq_refl) as (H1 & _ & H3 & _).
  split; [exact H1|exact H3].
Defined.

Lemma count_is_unmatched_plus_matched_witness :
  exists unmatched,
    get_unmatched_data_references
      (snd (_refresh_data_references_cache Scenario.store
                                           Scenario.foldered_connector))
    = Ok unmatched /\
    get_data_reference_list_count
      (snd (_refresh_data_references_cache Scenario.store
                                           Scenario.foldered_connector))
    = Ok (length unmatched + 2).
Proof.
  exact (count_is_unmatched_plus_matched
           (snd (_refresh_data_references_cache Scenario.store
                                                Scenario.foldered_connector))
           _ _ eq_refl eq_refl).
Defined.

End RefreshFacts.

(* ================================================================= *)
(** ** More on the connector: sorted answers *)

Module SortedAnswerFacts.
Import SortFacts SorterChainFacts.

Lemma insert_below : forall (A : Type) (leb : A -> A -> bool) x l,
    Forall (fun y => leb x y = true) l -> insert leb x l = x :: l.
Proof.
  intros A leb x [|y l] H; simpl.
  - reflexivity.
  - inversion H as [|? ? Hy _]; subst. now rewrite Hy.
Qed.

Lemma stable_sort_fixed : forall (A : Type) (leb : A -> A -> bool) l,
    StronglySorted (fun a b => leb a b = true) l -> stable_sort leb l = l.
Proof.
  intros A leb. induction l as [|x l IH]; intros Hs; simpl.
  - reflexivity.
  - inversion Hs as [|? ? Hl Hx]; subst.
    rewrite (IH Hl). now apply insert_below.
Qed.

Lemma sort_is_lexicographic : forall c l,
    _sort_batch_definition_list c l
    = stable_sort (lexicographic_leb (dict_values (sorters c))) l.
Proof. intros c l. apply passes_in_reverse. Qed.

(** X10. Sorting a list of batch definitions that is already sorted
    gives it back: the sorter chain applied twice is the sorter chain
    applied once. *)
Theorem sort_batch_definition_list_idempotent :
  forall (c : Connector) (l : list BatchDefinition),
    _sort_batch_definition_list c (_sort_batch_definition_list c l)
    = _sort_batch_definition_list c l.
Proof.
  intros c l. rewrite !sort_is_lexicographic.
  apply stable_sort_fixed. apply stable_sort_sorted.
  - apply lexicographic_total.
  - apply lexicographic_trans.
Qed.

Section Facts.
Variable PartitionRequest : Type.
Variable _validate_batch_request :
  Connector -> BatchRequest PartitionRequest -> result unit.
Variable batch_definition_matches_batch_request :
  BatchDefinition -> BatchRequest PartitionRequest -> bool.
Variable select_from_partition_request :
  PartitionRequest -> list BatchDefinition -> list BatchDefinition.
Variable listing : string -> string -> result (list string).

(** X6. On a connector with sorters, the batch definitions a request
    returns come in the order of the sorters: by the first sorter, by the
    second among those the first holds equal, and so on. *)
Theorem served_batches_are_sorted :
  forall (r : BatchRequest PartitionRequest) (c c' : Connector)
         (bds : list BatchDefinition),
    0 < length (sorters c) ->
    get_batch_definition_list_from_batch_request
      _validate_batch_request batch_definition_matches_batch_request
      select_from_partition_request listing r c = (Ok bds, c') ->
    StronglySorted
      (fun x y => lexicographic_leb (dict_values (sorters c)) x y = true)
      bds.
Proof.
  intros r c c' bds Hs H.
  pose proof (RequestFacts.serve_keeps_sorters
                _ _validate_batch_request
                batch_definition_matches_batch_request
                select_from_partition_request listing r c) as Hk.
  rewrite H in Hk. cbn [snd] in Hk.
  destruct (RequestFacts.serve_result_sorted
              _ _ _ _ listing r c bds c' Hs H) as (l & ->).
  rewrite sort_is_lexicographic, Hk.
  apply stable_sort_sorted.
  - apply lexicographic_total.
  - apply lexicographic_trans.
Qed.

End Facts.

Lemma served_batches_are_sorted_witness :
  0 < length (sorters MoreScenario.ordered_connector) /\
  exists c',
    get_batch_definition_list_from_batch_request
      Scenario.accept_request Scenario.same_names Scenario.no_query
      MoreScenario.mixed_store (Scenario.request_for "A")
      MoreScenario.ordered_connector
    = (Ok [MoreScenario.batch_of "a" "2"; MoreScenario.batch_of "b" "10";
           MoreScenario.batch_of "b" "7"], c') /\
    StronglySorted
      (fun x y =>
         lexicographic_leb
           (dict_values (sorters MoreScenario.ordered_connector)) x y = true)
      [MoreScenario.batch_of "a" "2"; MoreScenario.batch_of "b" "10";
       MoreScenario.batch_of "b" "7"].
Proof.
  assert (Hs : 0 < length (sorters MoreScenario.ordered_connector)).
  { simpl. lia. }
  split; [exact Hs|].
  eexists. split; [vm_compute; reflexivity|].
  eapply (served_batches_are_sorted
            unit Scenario.accept_request Scenario.same_names
            Scenario.no_query MoreScenario.mixed_store
            (Scenario.request_for "A") MoreScenario.ordered_connector
            _ _ Hs).
  vm_compute. reflexivity.
Defined.

End SortedAnswerFacts.

(* ================================================================= *)
(** ** More on the connector: what a batch request answers *)

Module AnswerFacts.

Section Facts.
Variable PartitionRequest : Type.
Variable _validate_batch_request :
  Connector -> BatchRequest PartitionRequest -> result unit.
Variable batch_definition_matches_batch_request :
  BatchDefinition -> BatchRequest PartitionRequest -> bool.
Variable select_from_partition_request :
  PartitionRequest -> list BatchDefinition -> list BatchDefinition.
Variable listing : string -> string -> result (list string).

Let serve :=
  get_batch_definition_list_from_batch_request
    _validate_batch_request batch_definition_matches_batch_request
    select_from_partition_request listing.

(** X7. A batch request without a partition request answers with the
    first batch definition of every cache entry that matches the request,
    each as often as it is cached and none besides: in the order of the
    cache when there are no sorters, rearranged by the sorters otherwise. *)
Theorem served_batches_are_the_matching_ones :
  forall (r : BatchRequest PartitionRequest) (c c' : Connector)
         (bds : list BatchDefinition),
    partition_request r = None ->
    serve r c = (Ok bds, c') ->
    exists cache firsts,
      _data_references_cache c' = Some cache /\
      first_batch_definitions (cache_entries cache) = Ok firsts /\
      Permutation
        (filter (fun bd => batch_definition_matches_batch_request bd r)
                firsts) bds /\
      (sorters c = [] ->
       bds = filter (fun bd => batch_definition_matches_batch_request bd r)
                    firsts).
Proof.
  intros r c c' bds Hq H.
  pose proof (RequestFacts.serve_keeps_sorters
                _ _validate_batch_request
                batch_definition_matches_batch_request
                select_from_partition_request listing r c) as Hk.
  fold serve in Hk. rewrite H in Hk. cbn [snd] in Hk.
  unfold serve, get_batch_definition_list_from_batch_request, bind, reads
    in H.
  rewrite Hq in H.
  destruct (_validate_batch_request c r) as [[]|e]; [|discriminate].
  destruct (_validate_sorters_configuration r c) as [[[]|e] c1];
    [|discriminate].
  assert (Hend : forall c2 : Connector,
             match
               match _data_references_cache c2 with
               | Some cache => first_batch_definitions (cache_entries cache)
               | None => Raise AttributeError
               end
             with
             | Ok firsts =>
                 (if Nat.ltb 0 (length (sorters c2))
                  then Ok (_sort_batch_definition_list
                             c2 (filter
                                   (fun bd =>
                                      batch_definition_matches_batch_request
                                        bd r) firsts))
                  else Ok (filter
                             (fun bd =>
                                batch_definition_matches_batch_request bd r)
                             firsts), c2)
             | Raise e => (Raise e, c2)
             end = (Ok bds, c') ->
             exists cache firsts,
               _data_references_cache c' = Some cache /\
               first_batch_definitions (cache_entries cache) = Ok firsts /\
               Permutation
                 (filter
                    (fun bd => batch_definition_matches_batch_request bd r)
                    firsts) bds /\
               (sorters c = [] ->
                bds = filter
                        (fun bd =>
                           batch_definition_matches_batch_request bd r)
                        firsts)).
  { intros c2 H2.
    destruct (_data_references_cache c2) as [cache|] eqn:Ec; [|discriminate].
    destruct (first_batch_definitions (cache_entries cache)) as [firsts|e]
      eqn:Ef; [|discriminate].
    destruct (Nat.ltb 0 (length (sorters c2))) eqn:Es;
      injection H2 as <- <-; exists cache, firsts;
      (split; [exact Ec|]); (split; [exact Ef|]); split.
    - apply SortFacts.sort_batch_definition_list_perm.
    - intros Hn. rewrite Hk, Hn in Es. discriminate.
    - apply Permutation_refl.
    - reflexivity. }
  destruct (is_none (_data_references_cache c1)).
  - destruct (_refresh_data_references_cache listing c1) as [[[]|e] c2];
      [|discriminate].
    exact (Hend c2 H).
  - exact (Hend c1 H).
Qed.

End Facts.

Lemma served_batches_are_the_matching_ones_witness :
  partition_request (Scenario.request_for "A") = None /\
  exists cache firsts,
    _data_references_cache
      (snd (get_batch_definition_list_from_batch_request
              Scenario.accept_request Scenario.same_names Scenario.no_query
              MoreScenario.mixed_store (Scenario.request_for "A")
              MoreScenario.ordered_connector)) = Some cache /\
    first_batch_definitions (cache_entries cache) = Ok firsts /\
    Permutation
      (filter (fun bd => Scenario.same_names bd (Scenario.request_for "A"))
              firsts)
      [MoreScenario.batch_of "a" "2"; MoreScenario.batch_of "b" "10";
       MoreScenario.batch_of "b" "7"] /\
    (sorters MoreScenario.ordered_connector = [] ->
     [MoreScenario.batch_of "a" "2"; MoreScenario.batch_of "b" "10";
      MoreScenario.batch_of "b" "7"]
     = filter (fun bd => Scenario.same_names bd (Scenario.request_for "A"))
              firsts).
Proof.
  split; [reflexivity|].
  eapply (served_batches_are_the_matching_ones
            unit Scenario.accept_request Scenario.same_names
            Scenario.no_query MoreScenario.mixed_store
            (Scenario.request_for "A") MoreScenario.ordered_connector
            _ _ eq_refl).
  vm_compute. reflexivity.
Defined.

End AnswerFacts.

(* ================================================================= *)
(** ** More on the connector: directories and paths *)

Module PathFacts.
Import PatternMapperFacts.

Lemma normalize_absolute : forall p,
    is_absolute p = true -> is_absolute (normalize p) = true.
Proof.
  intros [|x rest] Hp; [discriminate|].
  unfold normalize. rewrite Hp.
  simpl in Hp. apply Ascii.eqb_eq in Hp. subst x.
  destruct rest as [|y rest]; reflexivity.
Qed.

Lemma joinpath_absolute : forall base p,
    is_absolute base = true -> is_absolute (joinpath base p) = true.
Proof.
  intros base p Hb. unfold joinpath. apply normalize_absolute.
  destruct (is_absolute p) eqn:Ep; [exact Ep|].
  destruct (String.eqb p ""); [exact Hb|].
  destruct base as [|x rest]; [discriminate|].
  simpl in Hb. apply Ascii.eqb_eq in Hb. subst x.
  destruct rest as [|y rest]; reflexivity.
Qed.

(** X11. A connector constructed with an absolute base directory, or
    with a relative one and an absolute root directory of the data
    context, has an absolute base directory. *)
Theorem constructed_base_directory_is_absolute :
  forall (name_ execution_environment_name_ directory : string)
         (default_regex : RegexConfig) (assets_ : dict Asset)
         (glob_directive : string) (sorters_ : dict Sorter)
         (root : option string),
    is_absolute directory = true \/
    (exists r, root = Some r /\ is_absolute r = true) ->
    is_absolute
      (base_directory
         (init name_ execution_environment_name_ directory default_regex
               assets_ glob_directive sorters_ root)) = true.
Proof.
  intros n e d rx a g so root H.
  unfold base_directory, init, _normalize_directory_path. cbn [_base_directory].
  destruct root as [r|].
  - destruct (is_absolute d) eqn:Ed; [exact Ed|].
    destruct H as [H|(r' & [= <-] & Hr)]; [discriminate|].
    now apply joinpath_absolute.
  - destruct H as [H|(r' & [=] & _)]. exact H.
Qed.

Lemma constructed_base_directory_is_absolute_witness :
  (is_absolute "files" = true \/
   exists r, Some "/project" = Some r /\ is_absolute r = true) /\
  base_directory
    (init "conn" "env" "files" Scenario.name_id_regex [] "*" []
          (Some "/project")) = "/project/files" /\
  is_absolute
    (base_directory
       (init "conn" "env" "files" Scenario.name_id_regex [] "*" []
             (Some "/project"))) = true.
Proof.
  assert (H : is_absolute "files" = true \/
              exists r, Some "/project" = Some r /\ is_absolute r = true).
  { right. exists "/project". split; reflexivity. }
  split; [exact H|]. split; [reflexivity|].
  exact (constructed_base_directory_is_absolute
           "conn" "env" "files" Scenario.name_id_regex [] "*" []
           (Some "/project") H).
Defined.

(** X12. On a connector whose base directory is absolute, every
    directory that is listed for an asset is absolute, and so is the path
    of every batch spec that is built. *)
Theorem absolute_base_directory_gives_absolute_paths :
  forall c : Connector,
    is_absolute (base_directory c) = true ->
    (forall data_asset_name,
        is_absolute (data_asset_path c data_asset_name) = true) /\
    (forall bd spec,
        build_batch_spec c bd = Ok spec -> is_absolute (path spec) = true).
Proof.
  intros c Hb. split.
  - intros a. unfold data_asset_path.
    destruct (known_asset c a) as [asset|]; [|exact Hb].
    destruct (asset_base_directory asset) as [d|]; [|exact Hb].
    destruct (truthy_str (Some d)); [|exact Hb].
    now apply joinpath_absolute.
  - intros bd spec H. rewrite BatchSpecFacts.build_batch_spec_path in H.
    destruct (_map_batch_definition_to_data_reference c bd) as [p|e];
      [|discriminate].
    destruct (String.eqb p ""); [discriminate|].
    injection H as <-. cbn [path]. now apply joinpath_absolute.
Qed.

Lemma absolute_base_directory_gives_absolute_paths_witness :
  is_absolute (base_directory Scenario.foldered_connector) = true /\
  data_asset_path Scenario.foldered_connector (Some "A") = "/data/A" /\
  is_absolute (data_asset_path Scenario.foldered_connector (Some "A"))
  = true /\
  build_batch_spec Scenario.foldered_connector Scenario.batch_a_1
  = Ok {| path := "/data/a_1.csv" |} /\
  is_absolute (path {| path := "/data/a_1.csv" |}) = true.
Proof.
  assert (H : is_absolute (base_directory Scenario.foldered_connector)
              = true) by reflexivity.
  split; [exact H|]. split; [reflexivity|].
  split;
    [exact (proj1 (absolute_base_directory_gives_absolute_paths
                     Scenario.foldered_connector H) (Some "A"))|].
  split; [reflexivity|].
  exact (proj2 (absolute_base_directory_gives_absolute_paths
                  Scenario.foldered_connector H)
               Scenario.batch_a_1 {| path := "/data/a_1.csv" |} eq_refl).
Defined.

(** X13. With the regex mappings of [util.py] as the spec describes
    them, and effective group names that are pairwise distinct and at
    least as many as the capture groups: the reference a batch definition
    maps back to is the part of the original reference that the pattern
    read, so the original reference starts with it; and when the pattern
    reads the reference to its end, the batch spec of the batch definition
    is the path of that very reference under the connector's base
    directory. *)
Theorem batch_spec_points_at_the_reference :
  forall (c : Connector) (data_reference data_asset_name : string)
         (bd : BatchDefinition),
    NoDup (group_names_of (regex_config_for c (Some data_asset_name))) ->
    ngroups (pattern_of (regex_config_for c (Some data_asset_name)))
    <= length (group_names_of (regex_config_for c (Some data_asset_name))) ->
    _map_data_reference_to_batch_definition_list
      c data_reference (Some data_asset_name) = Some [bd] ->
    exists back rest,
      _map_batch_definition_to_data_reference c bd = Ok back /\
      data_reference = (back ++ rest)%string /\
      (reads_entirely
         (pattern_of (regex_config_for c (Some data_asset_name)))
         data_reference = true ->
       back = data_reference /\
       (data_reference <> ""%string ->
        build_batch_spec c bd
        = Ok {| path := joinpath (base_directory c) data_reference |})).
Proof.
  intros c ref a bd Hnd Hn H.
  unfold _map_data_reference_to_batch_definition_list,
    map_data_reference_string_to_batch_definition_list_using_regex,
    re_match in H.
  unfold reads_entirely.
  set (cfg := regex_config_for c (Some a)) in *.
  destruct (pmatch (pattern_of cfg) (list_ascii_of_string ref) [])
    as [[gs rest]|] eqn:E; [|discriminate].
  injection H as <-.
  destruct (pmatch_again _ _ _ _ E) as (Hl & Hs & _).
  destruct (fill_template
              (pattern_of cfg) (group_names_of cfg) gs
              (dict_of_items (combine (group_names_of cfg)
                                      (map string_of_list_ascii gs))) Hl Hn)
    as (t & Ht & Hf).
  { intros n v Hin. now apply zipped_dict_get. }
  assert (Hback : forall bd',
             bd' = {| bd_execution_environment_name :=
                        execution_environment_name c;
                      bd_data_connector_name := name c;
                      bd_data_asset_name := Some a;
                      partition_definition :=
                        dict_of_items
                          (combine (group_names_of cfg)
                                   (map string_of_list_ascii gs)) |} ->
             _map_batch_definition_to_data_reference c bd'
             = Ok (string_of_list_ascii (matched_text (pattern_of cfg) gs))).
  { intros bd' ->.
    unfold _map_batch_definition_to_data_reference,
      map_batch_definition_to_data_reference_string_using_regex.
    simpl. fold cfg. now rewrite Ht, Hf. }
  assert (Href : ref
                 = (string_of_list_ascii (matched_text (pattern_of cfg) gs)
                    ++ string_of_list_ascii rest)%string).
  { rewrite <- string_of_list_ascii_app, <- Hs.
    symmetry. apply string_of_list_ascii_of_string. }
  exists (string_of_list_ascii (matched_text (pattern_of cfg) gs)),
    (string_of_list_ascii rest).
  split; [now apply Hback|]. split; [exact Href|].
  intros Hall. destruct rest as [|x rest]; [|discriminate].
  assert (Heq : string_of_list_ascii (matched_text (pattern_of cfg) gs)
                = ref).
  { rewrite app_nil_r in Hs. rewrite <- Hs.
    apply string_of_list_ascii_of_string. }
  split; [exact Heq|]. intros Hne.
  rewrite BatchSpecFacts.build_batch_spec_path.
  rewrite (Hback _ eq_refl), Heq.
  destruct (String.eqb ref "") eqn:Ee; [|reflexivity].
  apply String.eqb_eq in Ee. contradiction.
Qed.

Lemma batch_spec_points_at_the_reference_witness :
  NoDup (group_names_of
           (regex_config_for Scenario.foldered_connector (Some "A"))) /\
  ngroups (pattern_of
             (regex_config_for Scenario.foldered_connector (Some "A")))
  <= length (group_names_of
               (regex_config_for Scenario.foldered_connector (Some "A"))) /\
  _map_data_reference_to_batch_definition_list
    Scenario.foldered_connector "a_1.csv" (Some "A")
  = Some [Scenario.batch_a_1] /\
  reads_entirely
    (pattern_of (regex_config_for Scenario.foldered_connector (Some "A")))
    "a_1.csv" = true /\
  build_batch_spec Scenario.foldered_connector Scenario.batch_a_1
  = Ok {| path := "/data/a_1.csv" |}.
Proof.
  assert (Hnd : NoDup (group_names_of
                         (regex_config_for Scenario.foldered_connector
                                           (Some "A")))).
  { repeat constructor; simpl; intuition discriminate. }
  assert (Hn : ngroups (pattern_of
                          (regex_config_for Scenario.foldered_connector
                                            (Some "A")))
               <= length (group_names_of
                            (regex_config_for Scenario.foldered_connector
                                              (Some "A")))).
  { simpl. lia. }
  split; [exact Hnd|]. split; [exact Hn|]. split; [reflexivity|].
  split; [reflexivity|].
  destruct (batch_spec_points_at_the_reference
              Scenario.foldered_connector "a_1.csv" "A" Scenario.batch_a_1
              Hnd Hn eq_refl) as (back & rest & _ & _ & Hall).
  destruct (Hall eq_refl) as [_ Hspec].
  apply Hspec. discriminate.
Defined.

End PathFacts.

(* ================================================================= *)
(** ** More on the connector: the references of an asset *)

Module ReferenceListFacts.

Lemma ascii_compare_trans : forall a b c o,
    Ascii.compare a b = o -> Ascii.compare b c = o -> o <> Eq ->
    Ascii.compare a c = o.
Proof.
  intros a b c o. unfold Ascii.compare. intros H1 H2 Ho.
  destruct o; [contradiction| |].
  - rewrite N.compare_lt_iff in *. lia.
  - rewrite N.compare_gt_iff in *. lia.
Qed.

Lemma string_compare_trans : forall s1 s2 s3,
    String.compare s1 s2 <> Gt -> String.compare s2 s3 <> Gt ->
    String.compare s1 s3 <> Gt.
Proof.
  induction s1 as [|c1 s1 IH]; intros [|c2 s2] [|c3 s3] H12 H23; simpl in *;
    try discriminate; try congruence.
  destruct (Ascii.compare c1 c2) eqn:E12;
    destruct (Ascii.compare c2 c3) eqn:E23; try congruence.
  - apply Ascii.compare_eq_iff in E12, E23. subst.
    assert (E : Ascii.compare c3 c3 = Eq) by apply N.compare_refl.
    rewrite E. now apply (IH s2).
  - apply Ascii.compare_eq_iff in E12. subst. now rewrite E23.
  - apply Ascii.compare_eq_iff in E23. subst. now rewrite E12.
  - rewrite (ascii_compare_trans c1 c2 c3 Lt E12 E23); discriminate.
Qed.

Lemma string_leb_total : total String.leb.
Proof. intros x y. apply String.leb_total. Qed.

Lemma string_leb_trans : transitive String.leb.
Proof.
  intros x y z. unfold String.leb. intros Hxy Hyz.
  pose proof (string_compare_trans x y z) as H.
  destruct (String.compare x y); try discriminate;
    destruct (String.compare y z); try discriminate;
    destruct (String.compare x z); try reflexivity;
    (exfalso; apply H; [discriminate|discriminate|reflexivity]).
Qed.

Lemma map_result_length : forall (A B : Type) (f : A -> result B) l ys,
    map_result f l = Ok ys -> length ys = length l.
Proof.
  intros A B f. induction l as [|x l IH]; intros ys H; simpl in H.
  - now injection H as <-.
  - destruct (f x) as [y|e]; [|discriminate].
    destruct (map_result f l) as [ys'|e]; [|discriminate].
    injection H as <-. simpl. now rewrite (IH _ eq_refl).
Qed.

Section Facts.
Variable PartitionRequest : Type.
Variable _validate_batch_request :
  Connector -> BatchRequest PartitionRequest -> result unit.
Variable batch_definition_matches_batch_request :
  BatchDefinition -> BatchRequest PartitionRequest -> bool.
Variable select_from_partition_request :
  PartitionRequest -> list BatchDefinition -> list BatchDefinition.
Variable listing : string -> string -> result (list string).

(** X14. The references of an asset come back in ascending order, one
    for each batch definition that a batch request for the asset under the
    connector's own names returns, and the connector is left as that
    request leaves it. *)
Theorem references_of_an_asset_are_sorted :
  forall (data_asset_name : string) (c c' : Connector)
         (path_list : list string),
    _get_data_reference_list_from_cache_by_data_asset_name
      _validate_batch_request batch_definition_matches_batch_request
      select_from_partition_request listing data_asset_name c
    = (Ok path_list, c') ->
    exists bds refs,
      get_batch_definition_list_from_batch_request
        _validate_batch_request batch_definition_matches_batch_request
        select_from_partition_request listing
        {| br_execution_environment_name := execution_environment_name c;
           br_data_connector_name := name c;
           br_data_asset_name := Some data_asset_name;
           partition_request := None |} c = (Ok bds, c') /\
      map_result
        (fun bd =>
           map_batch_definition_to_data_reference_string_using_regex
             bd
             (pattern_of (regex_config_for c' (Some data_asset_name)))
             (group_names_of (regex_config_for c' (Some data_asset_name))))
        bds = Ok refs /\
      Permutation refs path_list /\
      length path_list = length bds /\
      StronglySorted (fun x y => String.leb x y = true) path_list.
Proof.
  intros a c c' paths H.
  unfold _get_data_reference_list_from_cache_by_data_asset_name, bind, reads
    in H.
  match type of H with
  | context [get_batch_definition_list_from_batch_request
               ?v ?m ?s ?l ?r ?c0] =>
      destruct (get_batch_definition_list_from_batch_request v m s l r c0)
        as [[bds|e] c1] eqn:Es
  end; [|discriminate].
  match type of H with
  | context [map_result ?f bds] =>
      destruct (map_result f bds) as [refs|e] eqn:Em
  end; [|discriminate].
  injection H as <- <-.
  exists bds, refs. split; [reflexivity|]. split; [exact Em|].
  split; [apply SortFacts.stable_sort_perm|]. split.
  - rewrite <- (map_result_length _ _ _ _ _ Em).
    symmetry. apply Permutation_length. apply SortFacts.stable_sort_perm.
  - apply SorterChainFacts.stable_sort_sorted.
    + apply string_leb_total.
    + apply string_leb_trans.
Qed.

End Facts.

Lemma references_of_an_asset_are_sorted_witness :
  (exists c',
      _get_data_reference_list_from_cache_by_data_asset_name
        Scenario.accept_request Scenario.same_names Scenario.no_query
        MoreScenario.mixed_store "A" MoreScenario.ordered_connector
      = (Ok ["a_2.csv"; "b_10.csv"; "b_7.csv"], c')) /\
  StronglySorted (fun x y => String.leb x y = true)
                 ["a_2.csv"; "b_10.csv"; "b_7.csv"].
Proof.
  split; [eexists; vm_compute; reflexivity|].
  destruct (references_of_an_asset_are_sorted
              unit Scenario.accept_request Scenario.same_names
              Scenario.no_query MoreScenario.mixed_store "A"
              MoreScenario.ordered_connector
              (snd (_get_data_reference_list_from_cache_by_data_asset_name
                      Scenario.accept_request Scenario.same_names
                      Scenario.no_query MoreScenario.mixed_store "A"
                      MoreScenario.ordered_connector))
              ["a_2.csv"; "b_10.csv"; "b_7.csv"])
    as (bds & refs & _ & _ & _ & _ & Hs).
  - vm_compute. reflexivity.
  - exact Hs.
Defined.

End ReferenceListFacts.

(* ================================================================= *)
(** ** More on the decreasing expectation *)

Module MoreDecreasingFacts.
Import Decreasing DecreasingFacts.

Lemma wrap_int64_fits : forall z, in_int64 z = true -> wrap_int64 z = z.
Proof.
  intros z H. unfold in_int64 in H. apply andb_true_iff in H.
  destruct H as [Hl Hu]. apply Z.leb_le in Hl. apply Z.ltb_lt in Hu.
  unfold wrap_int64. rewrite Z.mod_small; lia.
Qed.

Lemma inject_Z_negative : forall z, (inject_Z z < 0)%Q <-> (z < 0)%Z.
Proof.
  intros z. unfold Qlt. simpl. lia.
Qed.

Lemma inject_Z_nonpositive : forall z, (inject_Z z <= 0)%Q <-> (z <= 0)%Z.
Proof.
  intros z. unfold Qle. simpl. lia.
Qed.

(** The order a column has to follow, from one value to the next. *)
Local Abbreviation falls strictly :=
  (fun a b : Z => if truthy_flag strictly then (b < a)%Z else (b <= a)%Z).

Local Abbreviation test strictly :=
  (fun d => if truthy_flag strictly then below_zero d else at_most_zero d).

(** The conversion to a float keeps the sign. *)
Lemma to_float64_sign : forall z,
    ((to_float64 z < 0 <-> z < 0) /\ (to_float64 z <= 0 <-> z <= 0))%Z.
Proof.
  intros z. unfold to_float64.
  destruct (Z.ltb (Z.abs z) (2 ^ 53)) eqn:E; [tauto|].
  apply Z.ltb_ge in E.
  set (m := Z.abs z) in *. set (e := (Z.log2 m - 52)%Z).
  assert (Hm : (0 < m)%Z) by (assert (0 < 2 ^ 53)%Z by reflexivity; lia).
  assert (Hlog : (53 <= Z.log2 m)%Z).
  { change 53%Z with (Z.log2 (2 ^ 53)). now apply Z.log2_le_mono. }
  assert (He : (0 < 2 ^ e)%Z) by (apply Z.pow_pos_nonneg; unfold e; lia).
  assert (Hle : (2 ^ e <= m)%Z).
  { apply Z.le_trans with (2 ^ Z.log2 m)%Z.
    - apply Z.pow_le_mono_r; unfold e; lia.
    - apply (Z.log2_spec m Hm). }
  assert (Hq : (0 < m / 2 ^ e)%Z) by (apply Z.div_str_pos; lia).
  set (q := (m / 2 ^ e)%Z) in *.
  match goal with
  | |- context [if ?b then (q + 1)%Z else q] =>
      set (q' := if b then (q + 1)%Z else q);
      assert (Hq' : (0 < q')%Z) by (unfold q'; destruct b; lia)
  end.
  assert (HP : (0 < q' * 2 ^ e)%Z) by now apply Z.mul_pos_pos.
  set (P := (q' * 2 ^ e)%Z) in *.
  destruct (Z.lt_trichotomy z 0) as [Hz|[Hz|Hz]].
  - rewrite (Z.sgn_neg z Hz). lia.
  - subst z. unfold m in Hm. simpl in Hm. lia.
  - rewrite (Z.sgn_pos z Hz). lia.
Qed.

Lemma mark_iff : forall strictly (p v : Z),
    in_int64 (v - p) = true ->
    test strictly (Finite (inject_Z (to_float64 (wrap_int64 (v - p))))) = true
    <-> falls strictly p v.
Proof.
  intros strictly p v Hfit. rewrite (wrap_int64_fits _ Hfit).
  destruct (to_float64_sign (v - p)) as [Hlt Hle].
  destruct (truthy_flag strictly).
  - rewrite below_zero_iff. simpl. rewrite inject_Z_negative. lia.
  - rewrite at_most_zero_iff. simpl. rewrite inject_Z_nonpositive. lia.
Qed.

Lemma marks_unfold :
  forall (value : Type) (subtract : value -> value -> option difference)
         series strictly,
    _pandas_column_values_decreasing subtract series strictly
    = map (test strictly) (fill_null (Finite (-1)) (diff subtract series)).
Proof.
  intros value subtract series strictly.
  unfold _pandas_column_values_decreasing.
  destruct (truthy_flag strictly); reflexivity.
Qed.

Lemma marks_after : forall strictly (values : list Z) (p : Z),
    differences_fit_from p values = true ->
    forallb (fun b : bool => b)
            (map (test strictly)
                 (fill_null (Finite (-1))
                            (diff_from int64_subtract (Some p)
                                       (map Some values))))
    = true
    <-> Sorted (falls strictly) (p :: values).
Proof.
  intros strictly. induction values as [|v values IH]; intros p Hfit.
  - simpl. split; [|reflexivity]. intros _. repeat constructor.
  - cbn [differences_fit_from] in Hfit. apply andb_true_iff in Hfit.
    destruct Hfit as [Hd Hfit].
    cbn [map diff_from fill_null forallb]. rewrite andb_true_iff.
    fold (fill_null (Finite (-1))
                    (diff_from int64_subtract (Some v) (map Some values))).
    unfold int64_subtract at 1.
    rewrite (IH v Hfit), (mark_iff strictly p v Hd). split.
    + intros [Hm Hs]. constructor; [exact Hs|]. constructor. exact Hm.
    + intros Hs. inversion Hs as [|? ? Hs' Hh]; subst.
      inversion Hh; subst. split; assumption.
Qed.

(** X15. On a column of 64-bit integers without missing values, in
    which the difference of each value and the one before it fits into 64
    bits, every row is marked as expected exactly when each value is below
    the one before it, or, when [strictly] is not set, not above it. *)
Theorem all_marked_iff_decreasing :
  forall (values : list Z) (strictly : option bool),
    forallb in_int64 values = true ->
    differences_fit values = true ->
    forallb (fun b : bool => b)
            (_pandas_column_values_decreasing int64_subtract
                                              (map Some values) strictly)
    = true
    <-> Sorted (fun a b : Z => if truthy_flag strictly then (b < a)%Z
                               else (b <= a)%Z) values.
Proof.
  intros values strictly _ Hfit. rewrite marks_unfold.
  destruct values as [|x values].
  - simpl. split; [constructor|reflexivity].
  - unfold diff. cbn [map diff_from fill_null forallb].
    fold (fill_null (Finite (-1))
                    (diff_from int64_subtract (Some x) (map Some values))).
    rewrite andb_true_iff, (marks_after strictly values x Hfit).
    split; [tauto|]. intros Hs. split; [|exact Hs].
    destruct (truthy_flag strictly); reflexivity.
Qed.

Lemma all_marked_iff_decreasing_witness :
  forallb in_int64 [3; 2; 2]%Z = true /\
  differences_fit [3; 2; 2]%Z = true /\
  _pandas_column_values_decreasing int64_subtract
                                   (map Some [3; 2; 2]%Z) (Some true)
  = [true; true; false] /\
  ~ Sorted (fun a b : Z => (b < a)%Z) [3; 2; 2]%Z /\
  Sorted (fun a b : Z => (b <= a)%Z) [3; 2; 2]%Z.
Proof.
  split; [reflexivity|]. split; [reflexivity|]. split; [reflexivity|].
  split.
  - intros Hs.
    apply (proj2 (all_marked_iff_decreasing [3; 2; 2]%Z (Some true)
                                            eq_refl eq_refl)) in Hs.
    discriminate Hs.
  - exact (proj1 (all_marked_iff_decreasing [3; 2; 2]%Z None
                                            eq_refl eq_refl) eq_refl).
Defined.

(** X16. A row that is marked as expected under [strictly] is also
    marked as expected without it, missing values or not, whatever the
    arithmetic of the column. *)
Theorem strict_mark_implies_plain_mark :
  forall (value : Type) (subtract : value -> value -> option difference)
         (series : list (option value)) (strictly : option bool) (i : nat),
    nth_error (_pandas_column_values_decreasing subtract series (Some true)) i
    = Some true ->
    nth_error (_pandas_column_values_decreasing subtract series strictly) i
    = Some true.
Proof.
  intros value subtract series strictly i. rewrite !marks_nth.
  destruct (nth_error (diff subtract series) i) as [o|]; [|discriminate].
  cbn [truthy_flag]. intros [= H]. f_equal.
  destruct (truthy_flag strictly); [exact H|].
  apply below_zero_iff in H. apply at_most_zero_iff.
  match goal with
  | |- is_nonpositive ?d => destruct d as [q| |]; simpl in *
  end; [now apply Qlt_le_weak|contradiction|constructor].
Qed.

Lemma strict_mark_implies_plain_mark_witness :
  nth_error (_pandas_column_values_decreasing int64_subtract
                                              Scenario.series_3_1_2
                                              (Some true)) 1 = Some true /\
  nth_error (_pandas_column_values_decreasing int64_subtract
                                              Scenario.series_3_1_2 None) 1
  = Some true.
Proof.
  split; [reflexivity|].
  exact (strict_mark_implies_plain_mark
           Z int64_subtract Scenario.series_3_1_2 None 1 eq_refl).
Defined.

Section Facts.
Variables Configuration RuntimeConfiguration Metrics : Type.
Variables ResultFormat RawResultFormat Output : Type.
Variable get_validation_dependencies_metrics :
  Configuration -> option RuntimeConfiguration -> list string.
Variable extract_metrics :
  list string -> Metrics -> Configuration -> option RuntimeConfiguration ->
  dict metric_value.
Variable success_kwargs_mostly : option Q.
Variable runtime_result_format :
  RuntimeConfiguration -> option RawResultFormat.
Variable default_result_format : RawResultFormat.
Variable parse_result_format : RawResultFormat -> ResultFormat.
Variable _format_map_output : format_map_arguments ResultFormat -> Output.

Let validates :=
  _validates get_validation_dependencies_metrics extract_metrics
             success_kwargs_mostly runtime_result_format
             default_result_format parse_result_format _format_map_output.
Let metric_vals_of configuration metrics runtime_configuration :=
  extract_metrics
    (get_validation_dependencies_metrics configuration runtime_configuration)
    metrics configuration runtime_configuration.
(** X18. When the count of decreasing values or the count of non-null
    values is missing from the metrics, the expectation raises a
    [TypeError] and formats no output. *)
Theorem missing_count_raises_type_error :
  forall (configuration : Configuration) (metrics : Metrics)
         (runtime_configuration : option RuntimeConfiguration),
    dict_get "column_values.decreasing.count"
             (metric_vals_of configuration metrics runtime_configuration)
    = None \/
    dict_get "column_values.nonnull.count"
             (metric_vals_of configuration metrics runtime_configuration)
    = None ->
    validates configuration metrics runtime_configuration = Raise TypeError.
Proof.
  intros cfg metrics rc H.
  unfold validates, _validates, validates_arguments.
  fold (metric_vals_of cfg metrics rc).
  destruct H as [H|H]; rewrite H; cbn [as_number]; [reflexivity|].
  destruct (dict_get "column_values.decreasing.count"
                     (metric_vals_of cfg metrics rc)) as [[q| |]|];
    reflexivity.
Qed.

End Facts.

Lemma missing_count_raises_type_error_witness :
  (dict_get "column_values.decreasing.count"
            [("column_values.nonnull.count", MNumber 3%Q)] = None \/
   dict_get "column_values.nonnull.count"
            [("column_values.nonnull.count", MNumber 3%Q)] = None) /\
  _validates Scenario.decreasing_dependencies Scenario.metrics_as_given
             None Scenario.no_runtime_format "BASIC" Scenario.keep_format
             Scenario.output_is_arguments
             tt [("column_values.nonnull.count", MNumber 3%Q)] None
  = Raise TypeError.
Proof.
  split; [left; reflexivity|].
  exact (@missing_count_raises_type_error
           unit unit (dict metric_value) string string
           (format_map_arguments string)
           Scenario.decreasing_dependencies Scenario.metrics_as_given
           None Scenario.no_runtime_format "BASIC" Scenario.keep_format
           Scenario.output_is_arguments
           tt [("column_values.nonnull.count", MNumber 3%Q)] None
           (or_introl eq_refl)).
Defined.

End MoreDecreasingFacts.

(* ================================================================= *)
(** ** The configuration check of the value-lengths expectation *)

Module ValueLengthsFacts.
Import ValueLengths.

(** X19. The configuration check returns [True] exactly when the check
    of the base class passes and the configuration at hand (the one given,
    or the expectation's own when none is given) holds a [value] that is an
    integer, a float or a boolean; it never returns [False], and a [value]
    of [None] or a text is refused with "given value must be numerical". *)
Theorem validate_configuration_accepts_numbers_only :
  forall (SuperError : Type)
         (super_validate_configuration :
            option ExpectationConfiguration -> option SuperError)
         (self_configuration configuration : option ExpectationConfiguration),
    let at_hand :=
      match configuration with
      | None => self_configuration
      | Some _ => configuration
      end in
    (validate_configuration super_validate_configuration
                            self_configuration configuration
     = Returned _ true <->
     super_validate_configuration configuration = None /\
     exists conf v,
       at_hand = Some conf /\
       dict_get "value" (kwargs conf) = Some v /\
       ((exists b, v = KBool b) \/ (exists z, v = KInt z) \/
        (exists q, v = KFloat q))) /\
    validate_configuration super_validate_configuration
                           self_configuration configuration
    <> Returned _ false /\
    (forall conf v,
        super_validate_configuration configuration = None ->
        at_hand = Some conf ->
        dict_get "value" (kwargs conf) = Some v ->
        v = KNone \/ (exists s, v = KStr s) ->
        validate_configuration super_validate_configuration
                               self_configuration configuration
        = Raised (InvalidExpectationConfigurationError
                    _ "given value must be numerical")).
Proof.
  intros E sv self cfg at_hand. unfold validate_configuration.
  fold at_hand. split; [|split].
  - split.
    + destruct (sv cfg); [discriminate|].
      destruct at_hand as [conf|]; [|discriminate].
      destruct (dict_get "value" (kwargs conf)) as [v|] eqn:Ev;
        [|discriminate].
      destruct v; try discriminate; intros _; (split; [reflexivity|]);
        exists conf; eexists; (split; [reflexivity|]);
        (split; [exact Ev|]); eauto.
    + intros (-> & conf & v & -> & -> & H).
      destruct H as [(b & ->)|[(z & ->)|(q & ->)]]; reflexivity.
  - destruct (sv cfg); [discriminate|].
    destruct at_hand as [conf|]; [|discriminate].
    destruct (dict_get "value" (kwargs conf)) as [v|]; [|discriminate].
    destruct (is_float_or_int v); discriminate.
  - intros conf v -> -> -> [->|(s & ->)]; reflexivity.
Qed.

End ValueLengthsFacts.
